(** * Competitor-positioning service: a shallow embedding of [src/main.py]

    The service reads competitor rows from a hosted table, asks a completion
    API for a market-positioning paragraph and writes it back.  The two remote
    collaborators (the completion client and the record-store client) are
    libraries outside the repository; they are taken as an interface
    ([Clients]) whose operations act on the state of their own remote service
    and either return or raise.  Handlers are written in a small state and
    exception monad that also records every remote call and every log line. *)

From Stdlib Require Import ZArith String Ascii List.
From stdpp Require Import base option list gmap strings pretty.

Open Scope string_scope.
Open Scope list_scope.
Open Scope Z_scope.

(** ** Python values, strings and exceptions *)

(** The JSON scalars a table row holds ([None], [bool], [int], [str]). *)
Inductive value :=
| VNone
| VBool (b : bool)
| VInt (n : Z)
| VStr (s : string).

#[global] Instance value_eq_dec : EqDecision value.
Proof. solve_decision. Defined.

(** A row is a Python [dict] from column names to values. *)
Abbreviation row := (gmap string value).

(** [str(v)], as used by f-string interpolation. *)
Definition str (v : value) : string :=
  match v with
  | VNone => "None"
  | VBool true => "True"
  | VBool false => "False"
  | VInt n => pretty n
  | VStr s => s
  end.

(** [c.isspace()] for a code point below 256: tab, LF, VT, FF, CR, the
    separators 0x1c-0x1f, space, NEL (0x85) and NBSP (0xa0). *)
Definition isspace (c : ascii) : bool :=
  let n := nat_of_ascii c in
  ((9 <=? n) && (n <=? 13) || (28 <=? n) && (n <=? 32)
   || (n =? 133) || (n =? 160))%nat.

Fixpoint lstrip (s : string) : string :=
  match s with
  | EmptyString => EmptyString
  | String c s' => if isspace c then lstrip s' else s
  end.

Fixpoint rstrip (s : string) : string :=
  match s with
  | EmptyString => EmptyString
  | String c s' =>
      match rstrip s' with
      | EmptyString => if isspace c then EmptyString else String c EmptyString
      | r => String c r
      end
  end.

(** [s.strip()]: whitespace removed at both ends. *)
Definition strip (s : string) : string := rstrip (lstrip s).

Definition nl : string := String (ascii_of_nat 10) EmptyString.

(** Notions used to say what [strip] achieves. *)
Fixpoint all_space (s : string) : bool :=
  match s with
  | EmptyString => true
  | String c s' => isspace c && all_space s'
  end.

Definition first_char (s : string) : option ascii :=
  match s with
  | EmptyString => None
  | String c _ => Some c
  end.

Fixpoint last_char (s : string) : option ascii :=
  match s with
  | EmptyString => None
  | String c EmptyString => Some c
  | String _ s' => last_char s'
  end.

(** The exceptions (all subclasses of Python's [Exception]) that can occur in
    the service.  [HTTPException] is FastAPI's; [ClientError] stands for
    whatever a remote client library raises, carrying its message. *)
Inductive exn :=
| HTTPException (status_code : Z) (detail : string)
| IndexError (msg : string)
| KeyError (key : string)
| AttributeError (msg : string)
| ValidationError (msg : string)
| ClientError (msg : string).

(** [str(e)].  A [KeyError] prints the repr of its key; an [HTTPException]
    prints as Starlette's [__str__] does, status code then detail. *)
Definition str_exn (e : exn) : string :=
  match e with
  | HTTPException status_code detail => pretty status_code +:+ ": " +:+ detail
  | IndexError msg => msg
  | KeyError key => "'" +:+ key +:+ "'"
  | AttributeError msg => msg
  | ValidationError msg => msg
  | ClientError msg => msg
  end.

(** ** The remote collaborators *)

(** One element of the [messages] argument of the completion call. *)
Record message_param := MessageParam { role : string; content : string }.

(** The part of the completion response the service reads:
    [response.choices[0].message.content]. *)
Module Completion.
Record ChatCompletionMessage := { content : option string }.
Record Choice := { message : ChatCompletionMessage }.
Record ChatCompletion := { choices : list Choice }.
End Completion.

(** A request built with the store client's query builder:
    [supabase.table(t).select(cols)] or [.update(payload)], followed by
    [.eq(column, v)] or [.is_(column, v)], then [.execute()]. *)
Inductive operation :=
| select (columns : string)
| update (payload : row).

Inductive filter_by :=
| eq_ (column : string) (v : value)
| is_ (column : string) (v : string).

Record query := Query { table : string; op : operation; where_ : filter_by }.

(** What a remote call or a Python expression does: return or raise. *)
Inductive outcome (A : Type) :=
| Returned (a : A)
| Raised (e : exn).
Arguments Returned {A} a.
Arguments Raised {A} e.

(** The two clients.  [L] is the state of the completion service, [S] the
    state of the record store; each call may change the state of its own
    service, also when it raises. *)
Record Clients (L S : Type) := {
  chat_completions_create :
    string -> list message_param -> L -> outcome Completion.ChatCompletion * L;
  execute : query -> S -> outcome (list row) * S
}.
Arguments chat_completions_create {L S} _ _ _ _.
Arguments execute {L S} _ _ _.

(** ** The handler monad *)

Inductive call :=
| CompletionCall (model : string) (messages : list message_param)
| StoreCall (q : query).

Inductive level := INFO | ERROR.

Record world (L S : Type) := World {
  llm : L;                          (* the completion service *)
  store : S;                        (* the record store *)
  calls : list call;                (* remote calls issued so far, oldest first *)
  logs : list (level * string)      (* log records emitted so far, oldest first *)
}.
Arguments World {L S} _ _ _ _.
Arguments llm {L S} _.
Arguments store {L S} _.
Arguments calls {L S} _.
Arguments logs {L S} _.

Definition M (L S A : Type) : Type := world L S -> outcome A * world L S.

Definition ret {L S A} (a : A) : M L S A := fun w => (Returned a, w).

Definition raise {L S A} (e : exn) : M L S A := fun w => (Raised e, w).

Definition bind {L S A B} (m : M L S A) (k : A -> M L S B) : M L S B :=
  fun w =>
    match m w with
    | (Returned a, w') => k a w'
    | (Raised e, w') => (Raised e, w')
    end.

(** [try: m  except Exception as e: h e] *)
Definition try_except {L S A} (m : M L S A) (h : exn -> M L S A) : M L S A :=
  fun w =>
    match m w with
    | (Returned a, w') => (Returned a, w')
    | (Raised e, w') => h e w'
    end.

Notation "'let*' x ':=' m 'in' k" := (bind m (fun x => k))
  (at level 10, x pattern, m at level 100, k at level 200).

(** [logger.info(msg)] / [logger.error(msg)] *)
Definition log {L S} (lv : level) (msg : string) : M L S unit :=
  fun w => (Returned tt, World (llm w) (store w) (calls w) (logs w ++ [(lv, msg)])).

(** [d[key]] on a dict *)
Definition getitem {L S} (d : row) (key : string) : M L S value :=
  match d !! key with
  | Some v => ret v
  | None => raise (KeyError key)
  end.

(** [l[0]] on a list *)
Definition first_item {L S A} (l : list A) : M L S A :=
  match l with
  | x :: _ => ret x
  | [] => raise (IndexError "list index out of range")
  end.

(** ** The service, [src/main.py] *)

(** The response model declared at lines 43-46. *)
Record CompetitorResponse := {
  id : Z;
  competitor_name : string;
  competitor_positioning : option string
}.

(** The model constructor called with the keys of [d] as keyword arguments
    (line 86): the declared field types read strictly, extra keys ignored;
    anything else is a validation error. *)
Definition model_validate (d : row) : outcome CompetitorResponse :=
  match d !! "id", d !! "competitor_name", d !! "competitor_positioning" with
  | Some (VInt i), Some (VStr n), Some (VStr p) =>
      Returned {| id := i; competitor_name := n; competitor_positioning := Some p |}
  | Some (VInt i), Some (VStr n), Some VNone =>
      Returned {| id := i; competitor_name := n; competitor_positioning := None |}
  | _, _, _ => Raised (ValidationError "validation error for CompetitorResponse")
  end.

(** What a handler hands back to the framework, and the JSON bodies of the
    responses. *)
Inductive body :=
| JCompetitor (c : CompetitorResponse)
| JStatus (status : string)
| JBatch (status : string) (total_processed : Z)
         (updated_competitors : list CompetitorResponse)
| JDetail (detail : string)
| PlainText (text : string).

Record response := Response { status_code : Z; payload_of : body }.

Definition system_instruction : string :=
  "You are a helpful assistant that analyzes market positioning and target audiences.".

(** The f-string of lines 53-60, with the indentation it has in the source. *)
Definition prompt_for (competitor_name : value) : string :=
  "Analyze " +:+ str competitor_name
    +:+ "'s loyalty program market positioning and target audience." +:+ nl
    +:+ "   Consider:" +:+ nl
    +:+ "   - Primary target demographic" +:+ nl
    +:+ "   - Market positioning (premium, value, etc.)" +:+ nl
    +:+ "   - Unique value proposition" +:+ nl
    +:+ "   - How the loyalty program supports their market position" +:+ nl
    +:+ "   " +:+ nl
    +:+ "   Provide this as a single, well-formatted paragraph focusing on who they target and how they position themselves.".

Definition positioning_messages (competitor_name : value) : list message_param :=
  [ MessageParam "system" system_instruction;
    MessageParam "user" (prompt_for competitor_name) ].

(** The query of lines 79-81. *)
Definition update_query (competitor_id : value) (positioning : string) : query :=
  Query "competitors"
        (update {[ "competitor_positioning" := VStr positioning ]})
        (eq_ "id" competitor_id).

(** The query of line 102. *)
Definition select_by_id (competitor_id : Z) : query :=
  Query "competitors" (select "*") (eq_ "id" (VInt competitor_id)).

(** The query of line 124. *)
Definition select_unanalysed : query :=
  Query "competitors" (select "id, competitor_name")
        (is_ "competitor_positioning" "null").

Section Service.
Context {L S : Type} (cl : Clients L S).

(** [client.chat.completions.create(model=..., messages=...)] *)
Definition create (model : string) (messages : list message_param)
  : M L S Completion.ChatCompletion :=
  fun w =>
    let '(r, l') := chat_completions_create cl model messages (llm w) in
    (r, World l' (store w) (calls w ++ [CompletionCall model messages]) (logs w)).

(** [<query>.execute()], returning [response.data] *)
Definition run_query (q : query) : M L S (list row) :=
  fun w =>
    let '(r, s') := execute cl q (store w) in
    (r, World (llm w) s' (calls w ++ [StoreCall q]) (logs w)).

(** Lines 48-70. *)
Definition get_market_positioning (competitor_name : value) : M L S string :=
  let* _ := log INFO ("Analyzing market positioning for " +:+ str competitor_name) in
  let* response := create "gpt-4" (positioning_messages competitor_name) in
  let* choice := first_item (Completion.choices response) in
  match Completion.content (Completion.message choice) with
  | Some text => ret (strip text)
  | None => raise (AttributeError "'NoneType' object has no attribute 'strip'")
  end.

(** Lines 72-86. *)
Definition update_competitor_positioning (competitor_id competitor_name : value)
  : M L S CompetitorResponse :=
  let* _ := log INFO ("Updating positioning analysis for competitor ID "
                      +:+ str competitor_id +:+ ": " +:+ str competitor_name) in
  let* positioning := get_market_positioning competitor_name in
  let* data := run_query (update_query competitor_id positioning) in
  let* updated_competitor := first_item data in
  let* _ := log INFO ("Successfully updated positioning analysis for "
                      +:+ str competitor_name) in
  match model_validate updated_competitor with
  | Returned c => ret c
  | Raised e => raise e
  end.

(** Lines 88-91. *)
Definition root : M L S body :=
  let* _ := log INFO "Health check endpoint called" in
  ret (JStatus "API is running").

(** The [try] block of [update_single_competitor], lines 99-111. *)
Definition update_single_try (competitor_id : Z) : M L S body :=
  let* _ := log INFO ("Received request to update competitor ID: "
                      +:+ pretty competitor_id) in
  let* data := run_query (select_by_id competitor_id) in
  let* _ := match data with
            | [] =>
                let* _ := log ERROR ("No competitor found with ID "
                                     +:+ pretty competitor_id) in
                raise (HTTPException 404 "Competitor not found")
            | _ :: _ => ret tt
            end in
  let* competitor := first_item data in
  let* name := getitem competitor "competitor_name" in
  let* updated_competitor :=
    update_competitor_positioning (VInt competitor_id) name in
  ret (JCompetitor updated_competitor).

(** Lines 93-115. *)
Definition update_single_competitor (competitor_id : Z) : M L S body :=
  try_except (update_single_try competitor_id)
    (fun e =>
       let* _ := log ERROR ("Error processing request: " +:+ str_exn e) in
       raise (HTTPException 500 (str_exn e))).

(** The call of line 135 with its arguments, evaluated left to right. *)
Definition row_update (competitor : row) : M L S CompetitorResponse :=
  let* competitor_id := getitem competitor "id" in
  let* name := getitem competitor "competitor_name" in
  update_competitor_positioning competitor_id name.

(** The statement of lines 134-139 for one row.  The success message of
    line 137 reads the key that line 135 has already read, so nothing can
    raise between the append and the end of the [try] block. *)
Definition process_row (competitor : row)
    (updated_competitors : list CompetitorResponse)
  : M L S (list CompetitorResponse) :=
  try_except
    (let* updated := row_update competitor in
     let* name := getitem competitor "competitor_name" in
     let* _ := log INFO ("Successfully processed " +:+ str name) in
     ret (updated_competitors ++ [updated]))
    (fun e =>
       let* name := getitem competitor "competitor_name" in
       let* _ := log ERROR ("Error processing " +:+ str name +:+ ": "
                            +:+ str_exn e) in
       ret updated_competitors).

(** The [for] loop of lines 133-139. *)
Fixpoint process_rows (data : list row)
    (updated_competitors : list CompetitorResponse)
  : M L S (list CompetitorResponse) :=
  match data with
  | [] => ret updated_competitors
  | competitor :: rest =>
      let* updated_competitors' := process_row competitor updated_competitors in
      process_rows rest updated_competitors'
  end.

(** The [try] block of [update_all_competitors], lines 123-145. *)
Definition update_all_try : M L S body :=
  let* _ := log INFO "Starting batch update of all competitors" in
  let* data := run_query select_unanalysed in
  match data with
  | [] =>
      let* _ := log INFO "No competitors found needing positioning analysis" in
      ret (JStatus "No competitors found needing updates")
  | _ :: _ =>
      let* _ := log INFO ("Found " +:+ pretty (Z.of_nat (length data))
                          +:+ " competitors to process") in
      let* updated_competitors := process_rows data [] in
      ret (JBatch "success" (Z.of_nat (length updated_competitors))
                  updated_competitors)
  end.

(** Lines 117-149. *)
Definition update_all_competitors : M L S body :=
  try_except update_all_try
    (fun e =>
       let* _ := log ERROR ("Error in batch update: " +:+ str_exn e) in
       raise (HTTPException 500 (str_exn e))).

(** The framework around a handler: a returned value is a 200 response, a
    raised [HTTPException] is a response with its status code and a
    [detail] body, any other exception is the server's plain 500. *)
Definition serve (handler : M L S body) (w : world L S) : response * world L S :=
  match handler w with
  | (Returned b, w') => (Response 200 b, w')
  | (Raised (HTTPException code detail), w') => (Response code (JDetail detail), w')
  | (Raised _, w') => (Response 500 (PlainText "Internal Server Error"), w')
  end.

Definition POST_update_single (competitor_id : Z) := serve (update_single_competitor competitor_id).
Definition POST_update_all := serve update_all_competitors.
Definition GET_root := serve root.

(** *** Notions used to state properties of the handlers *)

(** A world with the given services and nothing recorded yet. *)
Definition fresh (l : L) (s : S) : world L S := World l s [] [].

(** A computation reads only the two services, and only appends to the
    record of calls and to the log. *)
Definition framed {A} (m : M L S A) : Prop :=
  forall w,
    m w = let '(o, w') := m (fresh (llm w) (store w)) in
          (o, World (llm w') (store w')
                    (calls w ++ calls w') (logs w ++ logs w')).

(** What the call of line 135 does on each row of [data] in turn, the two
    services evolving from one row to the next. *)
Fixpoint row_outcomes (data : list row) (l : L) (s : S)
  : list (outcome CompetitorResponse) :=
  match data with
  | [] => []
  | competitor :: rest =>
      let '(o, w') := row_update competitor (fresh l s) in
      o :: row_outcomes rest (llm w') (store w')
  end.

End Service.

(** The values of the outcomes that returned, in order. *)
Definition successes {A} (os : list (outcome A)) : list A :=
  omap (fun o => match o with Returned a => Some a | Raised _ => None end) os.

(** A remote call that writes to the store writes the positioning column and
    nothing else. *)
Definition writes_only_positioning (c : call) : Prop :=
  match c with
  | StoreCall q =>
      match op q with
      | update payload => dom payload = ({[ "competitor_positioning" ]} : gset string)
      | select _ => True
      end
  | CompletionCall _ _ => True
  end.


(** ** A table store

    Modelled from the spec: the data-store API is an external service; the
    spec (sections 3 and 6) describes it as one table named "competitors"
    with the operations select filtered by equality, select filtered by a
    null column, and update by equality filter returning the affected rows.
    The store's state is the list of its rows in their natural order. *)

Definition matches (f : filter_by) (r : row) : bool :=
  match f with
  | eq_ column v => bool_decide (r !! column = Some v)
  | is_ column v =>
      bool_decide (v = "null") && bool_decide (r !! column = Some VNone)
  end.

(** The column list of a select: names separated by commas, blanks ignored. *)
Fixpoint split_columns (s : string) (current : string) : list string :=
  match s with
  | EmptyString => [current]
  | String c s' =>
      if bool_decide (c = ","%char) then current :: split_columns s' ""
      else if bool_decide (c = " "%char) then split_columns s' current
      else split_columns s' (current +:+ String c "")
  end.

Definition project (columns : string) (r : row) : row :=
  if bool_decide (columns = "*") then r
  else filter (fun kv => kv.1 ∈ split_columns columns "") r.

Definition write (f : filter_by) (payload : row) (r : row) : row :=
  if matches f r then payload ∪ r else r.

Definition table_execute (q : query) (t : list row) : outcome (list row) * list row :=
  if bool_decide (table q = "competitors") then
    match op q with
    | select columns =>
        (Returned (project columns <$> List.filter (matches (where_ q)) t), t)
    | update payload =>
        (Returned ((fun r => payload ∪ r) <$> List.filter (matches (where_ q)) t),
         write (where_ q) payload <$> t)
    end
  else (Raised (ClientError "relation does not exist"), t).
Arguments table_execute : simpl never.

(** A completion service without state, answering by a fixed function, next
    to the table store. *)
Definition table_clients
    (answer : string -> list message_param -> outcome Completion.ChatCompletion)
  : Clients unit (list row) :=
  {| chat_completions_create model messages l := (answer model messages, l);
     execute := table_execute |}.

(** A completion with one choice carrying [text]. *)
Definition completion_of (text : string) : Completion.ChatCompletion :=
  {| Completion.choices :=
       [ {| Completion.message := {| Completion.content := Some text |} |} ] |}.

(** A store that cannot be reached: every request raises. *)
Definition unreachable_clients
    (answer : string -> list message_param -> outcome Completion.ChatCompletion)
  : Clients unit (list row) :=
  {| chat_completions_create model messages l := (answer model messages, l);
     execute q t := (Raised (ClientError "connection refused"), t) |}.

(** ** Process start, lines 16-41 *)

(** [bool(v)] for the result of [os.getenv]: [None] and the empty string are
    false. *)
Definition truthy (v : option string) : bool :=
  match v with
  | Some s => negb (bool_decide (s = ""))
  | None => false
  end.

Section Startup.
(** The constructors of the two clients belong to their libraries; what
    they do with an absent value is theirs to decide. *)
Variable OpenAI : option string -> outcome unit.
Variable create_client : option string -> option string -> outcome unit.

(** The process environment once [load_dotenv()] has run. *)
Variable environ : gmap string string.

Definition getenv (name : string) : option string := environ !! name.

(** The code of [lifespan] before its [yield], lines 21-26. *)
Definition lifespan_startup : outcome unit * list (level * string) :=
  (Returned tt,
   [ (INFO, "Starting up application...");
     (INFO, "Checking environment variables...");
     if forallb truthy [ getenv "OPENAI_API_KEY"; getenv "SUPABASE_URL";
                         getenv "SUPABASE_KEY" ]
     then (INFO, "All required environment variables are set")
     else (ERROR, "Missing required environment variables!") ]).

(** The module-level statements of lines 35-41, run when the module is
    imported. *)
Definition import_module : outcome unit :=
  match OpenAI (getenv "OPENAI_API_KEY") with
  | Raised e => Raised e
  | Returned _ => create_client (getenv "SUPABASE_URL") (getenv "SUPABASE_KEY")
  end.

(** Starting the process: import the module, then enter the lifespan. *)
Definition startup : outcome unit * list (level * string) :=
  match import_module with
  | Raised e => (Raised e, [])
  | Returned _ => lifespan_startup
  end.
End Startup.

(** Constructors that reject an absent value, as the 1.x completion client
    (the one exporting [OpenAI]) and the store client's [create_client] do. *)
Definition OpenAI_requiring_key (api_key : option string) : outcome unit :=
  match api_key with
  | Some _ => Returned tt
  | None => Raised (ClientError "The api_key client option must be set either by passing api_key to the client or by setting the OPENAI_API_KEY environment variable")
  end.

Definition create_client_requiring_both (supabase_url supabase_key : option string)
  : outcome unit :=
  if negb (truthy supabase_url) then Raised (ClientError "supabase_url is required")
  else if negb (truthy supabase_key) then Raised (ClientError "supabase_key is required")
  else Returned tt.

(** The code of [lifespan] after its [yield], line 29. *)
Definition lifespan_shutdown : outcome unit * list (level * string) :=
  (Returned tt, [ (INFO, "Shutting down application...") ]).

(** ** Notions used to state what the routes never do *)

(** A computation takes every world to one related to it by [R]. *)
Definition respects {L S A} (R : world L S -> world L S -> Prop) (m : M L S A)
  : Prop :=
  forall w, R w (snd (m w)).

(** From [w] to [w'] calls have been added to the record, all of them
    satisfying [P], and none taken away. *)
Definition issued_only {L S} (P : call -> Prop) (w w' : world L S) : Prop :=
  exists issued, calls w' = calls w ++ issued /\ Forall P issued.

(** The discipline of the service's remote calls: completions are asked of
    the model "gpt-4"; store requests go to the table "competitors", and an
    update writes the positioning column of the rows with one given id. *)
Definition disciplined (c : call) : Prop :=
  match c with
  | CompletionCall model _ => model = "gpt-4"
  | StoreCall q =>
      table q = "competitors"
      /\ match op q with
         | select _ => True
         | update payload =>
             dom payload = ({[ "competitor_positioning" ]} : gset string)
             /\ exists v, where_ q = eq_ "id" v
         end
  end.

(** Two versions of a row that agree on every column but the positioning. *)
Definition same_other_columns (before after : row) : Prop :=
  forall column,
    column <> "competitor_positioning" -> after !! column = before !! column.

(** Over the table store: from [w] to [w'] the rows have stayed in place and
    all their columns but the positioning are as they were. *)
Definition rows_kept {L} (w w' : world L (list row)) : Prop :=
  Forall2 same_other_columns (store w) (store w').

(** A row still lacks its analysis. *)
Definition unanalysed (r : row) : Prop :=
  r !! "competitor_positioning" = Some VNone.

(** A completion service that answers every positioning prompt with a first
    choice that has a content. *)
Definition always_answers
    (answer : string -> list message_param -> outcome Completion.ChatCompletion)
  : Prop :=
  forall name, exists r c cs text,
      answer "gpt-4" (positioning_messages name) = Returned r
      /\ Completion.choices r = c :: cs
      /\ Completion.content (Completion.message c) = Some text.

(** ** Sample data *)

Definition competitor_row (i : Z) (name : string) (positioning : value) : row :=
  <["id" := VInt i]>
    (<["competitor_name" := VStr name]>
       (<["competitor_positioning" := positioning]> ∅)).

Definition acme : row := competitor_row 1 "Acme" VNone.
Definition globex : row := <["country" := VStr "US"]> (competitor_row 2 "Globex" VNone).
Definition initech : row := competitor_row 3 "Initech" VNone.

#[global] Instance message_param_eq_dec : EqDecision message_param.
Proof. solve_decision. Defined.

(** A completion service that always answers with the same padded text. *)
Definition padded_answer (model : string) (messages : list message_param)
  : outcome Completion.ChatCompletion :=
  Returned (completion_of ("  Acme targets price-sensitive SMEs..." +:+ nl)).

(** A completion service that is rate limited whenever asked about Globex. *)
Definition answer_unless_globex (model : string) (messages : list message_param)
  : outcome Completion.ChatCompletion :=
  if bool_decide (messages = positioning_messages (VStr "Globex"))
  then Raised (ClientError "rate limit exceeded")
  else padded_answer model messages.

(** The rows as the select of line 124 lists them: id and name only. *)
Definition listed (i : Z) (name : string) : row :=
  <["id" := VInt i]> (<["competitor_name" := VStr name]> ∅).

(** A row that has lost its name column. *)
Definition unnamed : row :=
  <["id" := VInt 7]> (<["competitor_positioning" := VNone]> ∅).

(** An environment in which only the completion-API key is missing. *)
Definition environ_without_api_key : gmap string string :=
  <["SUPABASE_URL" := "https://example.supabase.co"]>
    (<["SUPABASE_KEY" := "service-role-key"]> ∅).

(** A row whose name column is null. *)
Definition anonymous : row :=
  <["id" := VInt 5]>
    (<["competitor_name" := VNone]> (<["competitor_positioning" := VNone]> ∅)).

(** A completion service that returns no choice at all. *)
Definition answer_without_choice (model : string) (messages : list message_param)
  : outcome Completion.ChatCompletion :=
  Returned {| Completion.choices := [] |}.

(** A completion service whose first choice has no content. *)
Definition answer_without_content (model : string) (messages : list message_param)
  : outcome Completion.ChatCompletion :=
  Returned {| Completion.choices :=
                [ {| Completion.message := {| Completion.content := None |} |} ] |}.

(** The padded paragraph and its only choice. *)
Definition padded_text : string := "  Acme targets price-sensitive SMEs..." +:+ nl.

Definition padded_choice : Completion.Choice :=
  {| Completion.message := {| Completion.content := Some padded_text |} |}.

(** An environment in which the completion-API key is set to the empty
    string. *)
Definition environ_with_empty_api_key : gmap string string :=
  <["OPENAI_API_KEY" := ""]> environ_without_api_key.

(** A completion service that is down. *)
Definition no_answer (model : string) (messages : list message_param)
  : outcome Completion.ChatCompletion :=
  Raised (ClientError "service unavailable").

(** * Properties *)

(** ** The string helpers *)

Lemma append_empty_l s : "" +:+ s = s.
Proof. reflexivity. Qed.

Lemma append_String a s t : String a s +:+ t = String a (s +:+ t).
Proof. reflexivity. Qed.

Lemma lstrip_decompose s :
  exists l, s = l +:+ lstrip s /\ all_space l = true.
Proof.
  induction s as [|a s (l & Hs & Hl)]; [by exists ""|]. simpl.
  destruct (isspace a) eqn:Ha.
  - exists (String a l). rewrite append_String. simpl. rewrite Ha, Hl.
    split; [by rewrite <- Hs | done].
  - by exists "".
Qed.

Lemma lstrip_first s c : first_char (lstrip s) = Some c -> isspace c = false.
Proof.
  induction s as [|a s IH]; simpl; [discriminate|].
  destruct (isspace a) eqn:Ha; [exact IH|].
  simpl. by intros [= <-].
Qed.

Lemma rstrip_decompose s :
  exists r, s = rstrip s +:+ r /\ all_space r = true.
Proof.
  induction s as [|a s (r & Hs & Hr)]; [by exists ""|]. simpl.
  destruct (rstrip s) as [|b u] eqn:Hstrip.
  - rewrite append_empty_l in Hs. subst r. destruct (isspace a) eqn:Ha.
    + exists (String a s). rewrite append_empty_l. simpl. by rewrite Ha, Hr.
    + exists s. by rewrite append_String, append_empty_l.
  - exists r. split; [|done]. rewrite append_String. by rewrite <- Hs.
Qed.

Lemma rstrip_first s c : first_char (rstrip s) = Some c -> first_char s = Some c.
Proof.
  destruct s as [|a s]; simpl; [done|].
  destruct (rstrip s); [destruct (isspace a)|]; simpl; done.
Qed.

Lemma rstrip_last s c : last_char (rstrip s) = Some c -> isspace c = false.
Proof.
  induction s as [|a s IH]; simpl; [discriminate|].
  destruct (rstrip s) as [|b u] eqn:Hstrip.
  - destruct (isspace a) eqn:Ha; simpl; [discriminate|]. by intros [= <-].
  - exact IH.
Qed.

(** [strip] removes a run of whitespace at each end and nothing else, and
    what is left neither starts nor ends with whitespace. *)
Lemma strip_spec s :
  (exists l r, s = l +:+ (strip s +:+ r)
               /\ all_space l = true /\ all_space r = true)
  /\ (forall c, first_char (strip s) = Some c -> isspace c = false)
  /\ (forall c, last_char (strip s) = Some c -> isspace c = false).
Proof.
  unfold strip. split; [|split].
  - destruct (lstrip_decompose s) as (l & Hs & Hl).
    destruct (rstrip_decompose (lstrip s)) as (r & Hs' & Hr).
    exists l, r. by rewrite <- Hs', <- Hs.
  - intros c Hc. by eapply lstrip_first, rstrip_first.
  - intros c. apply rstrip_last.
Qed.

(** ** Collecting the rows that succeeded *)

Lemma successes_cons_returned {A} (a : A) os :
  successes (Returned a :: os) = a :: successes os.
Proof. reflexivity. Qed.

Lemma successes_cons_raised {A} e (os : list (outcome A)) :
  successes (Raised e :: os) = successes os.
Proof. reflexivity. Qed.

Lemma successes_all_returned {A} (os : list (outcome A)) :
  (forall j, (j < length os)%nat -> exists a, os !! j = Some (Returned a)) ->
  length (successes os) = length os
  /\ forall j a, os !! j = Some (Returned a) -> successes os !! j = Some a.
Proof.
  induction os as [|o os IH]; intros Hall.
  - split; [reflexivity|]. intros j a Hj. by destruct j.
  - destruct (Hall 0%nat) as [a0 Ha0]; [simpl; lia|]. injection Ha0 as ->.
    destruct IH as [IHlen IHget].
    { intros j Hj. apply (Hall (Datatypes.S j)). simpl. lia. }
    rewrite successes_cons_returned. split; [simpl; by rewrite IHlen|].
    intros [|j] a Hj; simpl in *; [congruence | by apply IHget].
Qed.

(** With a single failure at position [k], the successes are the other
    positions in their order: those before [k] keep their index, those after
    it move down by one. *)
Lemma successes_all_but_one {A} (os : list (outcome A)) :
  forall k e,
    os !! k = Some (Raised e) ->
    (forall j, j <> k -> (j < length os)%nat -> exists a, os !! j = Some (Returned a)) ->
    length (successes os) = (length os - 1)%nat
    /\ forall j a, os !! j = Some (Returned a) ->
         successes os !! (if decide (j < k)%nat then j else (j - 1)%nat) = Some a.
Proof.
  induction os as [|o os IH]; intros k e Hk Hall; [by destruct k|].
  destruct k as [|k].
  - injection Hk as ->. rewrite successes_cons_raised.
    destruct (successes_all_returned os) as [Hlen Hget].
    { intros j Hj. apply (Hall (Datatypes.S j)); [lia | simpl; lia]. }
    split; [simpl; lia|].
    intros [|j] a Hj; [discriminate|]. simpl in Hj.
    rewrite decide_False by lia.
    replace (Datatypes.S j - 1)%nat with j by lia. by apply Hget.
  - destruct (Hall 0%nat) as [a0 Ha0]; [lia | simpl; lia |]. injection Ha0 as ->.
    simpl in Hk. destruct (IH k e Hk) as [IHlen IHget].
    { intros j Hne Hj. apply (Hall (Datatypes.S j)); [lia | simpl; lia]. }
    rewrite successes_cons_returned. split.
    + simpl. rewrite IHlen. apply lookup_lt_Some in Hk. lia.
    + intros [|j] a Hj.
      * injection Hj as ->. by rewrite decide_True by lia.
      * simpl in Hj. specialize (IHget j a Hj).
        destruct (decide (j < k)%nat).
        -- rewrite decide_True by lia. exact IHget.
        -- rewrite decide_False by lia.
           assert (j <> k) by (intros ->; congruence).
           replace (Datatypes.S j - 1)%nat with (Datatypes.S (j - 1)) by lia.
           exact IHget.
Qed.

(** ** Running the monad *)

Ltac run :=
  unfold POST_update_single, POST_update_all, serve, update_single_competitor,
    update_all_competitors, update_single_try, update_all_try,
    update_competitor_positioning, get_market_positioning, try_except, bind,
    ret, raise, log, create, run_query; simpl.

Section Handlers.
Context {L S : Type} (cl : Clients L S).

(** An empty select-by-id makes the single-update route answer 500: the 404
    raised at line 106 is caught by the handler's own [except] clause. *)
Lemma update_single_not_found competitor_id w s' :
  execute cl (select_by_id competitor_id) (store w) = (Returned [], s') ->
  POST_update_single cl competitor_id w
  = (Response 500 (JDetail "404: Competitor not found"),
     World (llm w) s' (calls w ++ [StoreCall (select_by_id competitor_id)])
           (logs w ++ [(INFO, "Received request to update competitor ID: "
                              +:+ pretty competitor_id)]
                   ++ [(ERROR, "No competitor found with ID "
                               +:+ pretty competitor_id)]
                   ++ [(ERROR, "Error processing request: 404: Competitor not found")])).
Proof.
  intros Hsel. run. rewrite Hsel. simpl.
  by rewrite <- !(assoc_L (++)).
Qed.

(** *** Every handler is framed *)

Lemma framed_ret {A} (a : A) : framed (L:=L) (S:=S) (ret a).
Proof. intros [l s cs ls]. unfold ret, fresh. simpl. by rewrite !(right_id_L [] (++)). Qed.

Lemma framed_raise {A} (e : exn) : framed (L:=L) (S:=S) (A:=A) (raise e).
Proof. intros [l s cs ls]. unfold raise, fresh. simpl. by rewrite !(right_id_L [] (++)). Qed.

Lemma framed_log lv msg : framed (L:=L) (S:=S) (log lv msg).
Proof. intros [l s cs ls]. unfold log, fresh. simpl. by rewrite (right_id_L [] (++)). Qed.

Lemma framed_getitem d key : framed (L:=L) (S:=S) (getitem d key).
Proof. unfold getitem. destruct (d !! key); [apply framed_ret | apply framed_raise]. Qed.

Lemma framed_first_item {A} (l : list A) : framed (L:=L) (S:=S) (first_item l).
Proof. destruct l; [apply framed_raise | apply framed_ret]. Qed.

Lemma framed_create model messages : framed (create cl model messages).
Proof.
  intros [l s cs ls]. unfold create, fresh. simpl.
  destruct (chat_completions_create cl model messages l) as [r l'].
  simpl. by rewrite (right_id_L [] (++)).
Qed.

Lemma framed_run_query q : framed (run_query cl q).
Proof.
  intros [l s cs ls]. unfold run_query, fresh. simpl.
  destruct (execute cl q s) as [r s']. simpl. by rewrite (right_id_L [] (++)).
Qed.

Lemma framed_bind {A B} (m : M L S A) (k : A -> M L S B) :
  framed m -> (forall a, framed (k a)) -> framed (bind m k).
Proof.
  intros Hm Hk w. unfold bind. rewrite (Hm w).
  destruct (m (fresh (llm w) (store w))) as [[a|e] w1]; [|reflexivity].
  rewrite (Hk a (World _ _ _ _)), (Hk a w1). cbn [llm store calls logs].
  destruct (k a (fresh (llm w1) (store w1))) as [o w2].
  cbn [llm store calls logs]. by rewrite !(assoc_L (++)).
Qed.

Lemma framed_try_except {A} (m : M L S A) (h : exn -> M L S A) :
  framed m -> (forall e, framed (h e)) -> framed (try_except m h).
Proof.
  intros Hm Hh w. unfold try_except. rewrite (Hm w).
  destruct (m (fresh (llm w) (store w))) as [[a|e] w1]; [reflexivity|].
  rewrite (Hh e (World _ _ _ _)), (Hh e w1). cbn [llm store calls logs].
  destruct (h e (fresh (llm w1) (store w1))) as [o w2].
  cbn [llm store calls logs]. by rewrite !(assoc_L (++)).
Qed.

Create HintDb framed.
Hint Resolve framed_ret framed_raise framed_log framed_getitem
  framed_first_item framed_create framed_run_query : framed.

Ltac framed :=
  repeat first
    [ solve [auto with framed]
    | apply framed_bind; [|intros ?]
    | apply framed_try_except; [|intros ?] ].

Lemma framed_get_market_positioning name :
  framed (get_market_positioning cl name).
Proof.
  unfold get_market_positioning. framed.
  destruct (Completion.content _); auto with framed.
Qed.

Hint Resolve framed_get_market_positioning : framed.

Lemma framed_update_competitor_positioning competitor_id name :
  framed (update_competitor_positioning cl competitor_id name).
Proof.
  unfold update_competitor_positioning. framed.
  destruct (model_validate _); auto with framed.
Qed.

Hint Resolve framed_update_competitor_positioning : framed.

Lemma framed_row_update competitor : framed (row_update cl competitor).
Proof. unfold row_update. framed. Qed.

(** *** The single-update route when the record is absent *)

(** C1.  The claim is that an empty select-by-id is answered with 404
    "Competitor not found".  The handler raises that 404 inside its own
    [try] block, whose [except Exception] clause catches it: for every
    request whose select-by-id returns no row the response is a 500 whose
    detail is the text of the caught 404, never the 404 itself. *)
Theorem update_single_absent_id_answers_500 competitor_id w s' :
  execute cl (select_by_id competitor_id) (store w) = (Returned [], s') ->
  fst (POST_update_single cl competitor_id w)
  = Response 500 (JDetail "404: Competitor not found")
  /\ fst (POST_update_single cl competitor_id w)
     <> Response 404 (JDetail "Competitor not found").
Proof.
  intros Hsel. rewrite (update_single_not_found _ _ _ Hsel). simpl.
  split; [reflexivity | discriminate].
Qed.

(** *** The batch route with nothing to do *)

(** C6.  When the select filtered on a null positioning returns no row, the
    batch route answers 200 with the body
    [{"status": "No competitors found needing updates"}], and that select
    is the only remote call of the request: no update reaches the store. *)
Theorem update_all_nothing_to_update w s' :
  execute cl select_unanalysed (store w) = (Returned [], s') ->
  fst (POST_update_all cl w)
  = Response 200 (JStatus "No competitors found needing updates")
  /\ calls (snd (POST_update_all cl w)) = calls w ++ [StoreCall select_unanalysed]
  /\ store (snd (POST_update_all cl w)) = s'.
Proof.
  intros Hsel. run. by rewrite Hsel.
Qed.

(** *** The orchestrator *)

(** C9.  When the completion client raises, [update_competitor_positioning]
    raises the same exception, the completion call is the only remote call
    it has issued, and the store is left untouched: the write comes
    strictly after the analysis. *)
Theorem failed_completion_issues_no_store_call competitor_id name w e l' :
  chat_completions_create cl "gpt-4" (positioning_messages name) (llm w)
  = (Raised e, l') ->
  fst (update_competitor_positioning cl competitor_id name w) = Raised e
  /\ calls (snd (update_competitor_positioning cl competitor_id name w))
     = calls w ++ [CompletionCall "gpt-4" (positioning_messages name)]
  /\ store (snd (update_competitor_positioning cl competitor_id name w)) = store w.
Proof.
  intros Hc. run. by rewrite Hc.
Qed.

(** C5.  When the analysis succeeds and the store answers the update with
    an empty list of rows, [update_competitor_positioning] raises the
    [IndexError] of [response.data[0]] and nothing in it catches that: the
    caller receives an index error, not an HTTP 404. *)
Theorem update_returning_no_rows_raises_index_error
    competitor_id name w r l' c cs text s' :
  chat_completions_create cl "gpt-4" (positioning_messages name) (llm w)
  = (Returned r, l') ->
  Completion.choices r = c :: cs ->
  Completion.content (Completion.message c) = Some text ->
  execute cl (update_query competitor_id (strip text)) (store w)
  = (Returned [], s') ->
  fst (update_competitor_positioning cl competitor_id name w)
  = Raised (IndexError "list index out of range")
  /\ calls (snd (update_competitor_positioning cl competitor_id name w))
     = calls w ++ [ CompletionCall "gpt-4" (positioning_messages name);
                    StoreCall (update_query competitor_id (strip text)) ].
Proof.
  intros Hc Hch Htext Hu. run. rewrite Hc. simpl. rewrite Hch. simpl.
  rewrite Htext. simpl. rewrite Hu. simpl.
  by rewrite <- (assoc_L (++)).
Qed.

(** What one call of the orchestrator does to the record of calls and to
    the store: either the analysis fails and nothing reaches the store, or
    exactly one update query is executed. *)
Lemma update_competitor_positioning_effect competitor_id name w :
  (calls (snd (update_competitor_positioning cl competitor_id name w))
   = calls w ++ [CompletionCall "gpt-4" (positioning_messages name)]
   /\ store (snd (update_competitor_positioning cl competitor_id name w))
      = store w)
  \/ (exists positioning,
        calls (snd (update_competitor_positioning cl competitor_id name w))
        = calls w ++ [ CompletionCall "gpt-4" (positioning_messages name);
                       StoreCall (update_query competitor_id positioning) ]
        /\ store (snd (update_competitor_positioning cl competitor_id name w))
           = snd (execute cl (update_query competitor_id positioning) (store w))).
Proof.
  run.
  destruct (chat_completions_create cl "gpt-4" (positioning_messages name) (llm w))
    as [[r|e] l']; simpl; [|by left].
  destruct (Completion.choices r) as [|c cs]; simpl; [by left|].
  destruct (Completion.content (Completion.message c)) as [text|]; simpl;
    [|by left].
  right. exists (strip text).
  destruct (execute cl (update_query competitor_id (strip text)) (store w))
    as [[data|e] s']; simpl; [|by rewrite <- (assoc_L (++))].
  destruct data as [|updated_competitor rest]; simpl;
    [by rewrite <- (assoc_L (++))|].
  destruct (model_validate updated_competitor); simpl;
    by rewrite <- (assoc_L (++)).
Qed.

(** *** The batch loop *)

Lemma length_row_outcomes data : forall l s,
  length (row_outcomes cl data l s) = length data.
Proof.
  induction data as [|competitor rest IH]; intros l s; simpl; [reflexivity|].
  destruct (row_update cl competitor (fresh l s)) as [o w']. simpl.
  by rewrite IH.
Qed.

(** A row whose update returns has the name column the call has read. *)
Lemma row_update_returned_has_name competitor w c w' :
  row_update cl competitor w = (Returned c, w') ->
  is_Some (competitor !! "competitor_name").
Proof.
  unfold row_update, bind, getitem.
  destruct (competitor !! "id"); simpl; [|discriminate].
  destruct (competitor !! "competitor_name"); simpl; [eauto | discriminate].
Qed.

(** One turn of the loop: a row whose update returns is appended; a row
    whose update raises, and whose name can be read for the log line, is
    skipped.  Either way the services are as the update left them. *)
Lemma process_row_outcome competitor acc w o w1 :
  row_update cl competitor (fresh (llm w) (store w)) = (o, w1) ->
  is_Some (competitor !! "competitor_name") ->
  exists w',
    process_row cl competitor acc w
    = (Returned (match o with Returned c => acc ++ [c] | Raised _ => acc end), w')
    /\ llm w' = llm w1 /\ store w' = store w1.
Proof.
  intros Hrun [name Hname].
  unfold process_row, try_except, bind.
  rewrite (framed_row_update competitor w), Hrun.
  unfold getitem. rewrite Hname. unfold ret, log. simpl.
  destruct o as [c|e]; simpl; eauto.
Qed.

Lemma process_rows_collects data : forall acc w,
  (forall j competitor e,
      data !! j = Some competitor ->
      row_outcomes cl data (llm w) (store w) !! j = Some (Raised e) ->
      is_Some (competitor !! "competitor_name")) ->
  exists w',
    process_rows cl data acc w
    = (Returned (acc ++ successes (row_outcomes cl data (llm w) (store w))), w').
Proof.
  induction data as [|competitor rest IH]; intros acc w Hname; simpl.
  - unfold successes. simpl. rewrite (right_id_L [] (++)). by eexists.
  - destruct (row_update cl competitor (fresh (llm w) (store w)))
      as [o w1] eqn:Hrun.
    assert (is_Some (competitor !! "competitor_name")) as Hn.
    { destruct o as [c|e].
      - by eapply row_update_returned_has_name.
      - apply (Hname 0%nat competitor e); [reflexivity|].
        simpl. by rewrite Hrun. }
    destruct (process_row_outcome competitor acc w o w1 Hrun Hn)
      as (w' & Hrow & Hl & Hs).
    unfold bind. rewrite Hrow.
    destruct (IH (match o with Returned c => acc ++ [c] | Raised _ => acc end) w')
      as [w'' Hrest].
    { intros j c e Hj Ho. apply (Hname (Datatypes.S j) c e); [exact Hj|].
      simpl. rewrite Hrun. simpl. by rewrite <- Hl, <- Hs. }
    exists w''. rewrite Hrest, Hl, Hs.
    destruct o as [c|e].
    + by rewrite successes_cons_returned, <- (assoc_L (++)).
    + by rewrite successes_cons_raised.
Qed.

(** The world in which the batch loop starts. *)
Lemma update_all_try_loop w s0 data :
  execute cl select_unanalysed (store w) = (Returned data, s0) ->
  data <> [] ->
  exists w0,
    llm w0 = llm w /\ store w0 = s0
    /\ update_all_try cl w
       = bind (process_rows cl data [])
              (fun updated_competitors =>
                 ret (JBatch "success" (Z.of_nat (length updated_competitors))
                             updated_competitors)) w0.
Proof.
  intros Hsel Hne. unfold update_all_try.
  unfold bind at 1. unfold log at 1. unfold bind at 1. unfold run_query.
  cbn [llm store calls logs]. rewrite Hsel.
  destruct data as [|first rest]; [done|].
  unfold bind at 1. unfold log at 1.
  eexists (World _ _ _ _). split; [|split]; [| |reflexivity]; reflexivity.
Qed.

(** C3.  The filtered select returns [data]; the per-row update raises on
    row [k] (a row whose name the handler can log) and returns on every
    other row.  Then the batch route answers 200 with status "success",
    [total_processed] one less than the number of rows, and
    [updated_competitors] holding the records returned for the other rows
    in the order of the select result: rows before [k] at their own index,
    rows after [k] one position earlier. *)
Theorem update_all_drops_only_the_failing_row w s0 data k e :
  execute cl select_unanalysed (store w) = (Returned data, s0) ->
  row_outcomes cl data (llm w) s0 !! k = Some (Raised e) ->
  (exists competitor,
      data !! k = Some competitor /\ is_Some (competitor !! "competitor_name")) ->
  (forall j, j <> k -> (j < length data)%nat ->
             exists c, row_outcomes cl data (llm w) s0 !! j = Some (Returned c)) ->
  exists updated,
    fst (POST_update_all cl w)
    = Response 200 (JBatch "success" (Z.of_nat (length data) - 1) updated)
    /\ length updated = (length data - 1)%nat
    /\ forall j c,
         row_outcomes cl data (llm w) s0 !! j = Some (Returned c) ->
         updated !! (if decide (j < k)%nat then j else (j - 1)%nat) = Some c.
Proof.
  intros Hsel Hk (competitor & Hrow & Hname) Hothers.
  set (outs := row_outcomes cl data (llm w) s0) in *.
  destruct (successes_all_but_one outs k e Hk) as [Hlen Hget].
  { intros j Hne Hj. apply Hothers; [exact Hne|].
    unfold outs in Hj. by rewrite length_row_outcomes in Hj. }
  unfold outs in Hlen. rewrite length_row_outcomes in Hlen. fold outs in Hlen.
  exists (successes outs). split; [|split; [exact Hlen | exact Hget]].
  assert (data <> []) as Hne by (intros ->; discriminate).
  destruct (update_all_try_loop w s0 data Hsel Hne) as (w0 & Hl & Hs & Htry).
  destruct (process_rows_collects data [] w0) as [w' Hloop].
  { rewrite Hl, Hs. fold outs. intros j c e' Hj Ho.
    destruct (decide (j = k)) as [->|Hjk].
    - rewrite Hrow in Hj. by injection Hj as <-.
    - destruct (Hothers j Hjk) as [c' Hc'];
        [by apply lookup_lt_Some in Hj | congruence]. }
  rewrite Hl, Hs in Hloop. fold outs in Hloop. simpl in Hloop.
  unfold POST_update_all, serve, update_all_competitors, try_except.
  rewrite Htry. unfold bind. rewrite Hloop. unfold ret. simpl.
  do 3 f_equal. rewrite Hlen. apply lookup_lt_Some in Hrow. lia.
Qed.

(** *** Exceptions become 500 responses *)

(** C4.  Whatever exception the [try] block of the single-update route
    raises, and whatever exception leaves the [try] block of the batch
    route (that is, one that the per-row [try] has not absorbed, such as a
    failing initial select), the response is a 500 whose detail is
    [str(e)]. *)
Theorem escaping_exceptions_answer_500 :
  (forall competitor_id w e w',
      update_single_try cl competitor_id w = (Raised e, w') ->
      fst (POST_update_single cl competitor_id w)
      = Response 500 (JDetail (str_exn e)))
  /\ (forall w e w',
        update_all_try cl w = (Raised e, w') ->
        fst (POST_update_all cl w) = Response 500 (JDetail (str_exn e)))
  /\ (forall w e s',
        execute cl select_unanalysed (store w) = (Raised e, s') ->
        fst (POST_update_all cl w) = Response 500 (JDetail (str_exn e))).
Proof.
  split; [|split].
  - intros competitor_id w e w' Htry.
    unfold POST_update_single, serve, update_single_competitor, try_except.
    by rewrite Htry.
  - intros w e w' Htry.
    unfold POST_update_all, serve, update_all_competitors, try_except.
    by rewrite Htry.
  - intros w e s' Hsel. run. by rewrite Hsel.
Qed.

End Handlers.

(** ** The service over the table store *)

Lemma table_execute_select_by_id competitor_id t :
  table_execute (select_by_id competitor_id) t
  = (Returned (List.filter (matches (eq_ "id" (VInt competitor_id))) t), t).
Proof.
  unfold table_execute, select_by_id. simpl. f_equal. f_equal.
  induction (List.filter _ t) as [|r l IH]; [reflexivity|].
  rewrite fmap_cons, IH. reflexivity.
Qed.

Lemma table_execute_update competitor_id positioning t :
  table_execute (update_query competitor_id positioning) t
  = (Returned ((fun r => {[ "competitor_positioning" := VStr positioning ]} ∪ r)
               <$> List.filter (matches (eq_ "id" competitor_id)) t),
     write (eq_ "id" competitor_id)
           {[ "competitor_positioning" := VStr positioning ]} <$> t).
Proof. reflexivity. Qed.

(** A write of the positioning column leaves every other column of every row
    as it was. *)
Lemma write_other_columns f positioning (r : row) column :
  column <> "competitor_positioning" ->
  write f {[ "competitor_positioning" := VStr positioning ]} r !! column
  = r !! column.
Proof.
  intros Hne. unfold write. destruct (matches f r); [|reflexivity].
  rewrite lookup_union, lookup_singleton_ne by done.
  by destruct (r !! column).
Qed.

(** With the id a key of the table, the rows selected by that id start with
    the row that carries it. *)
Lemma filter_by_key competitor_id competitor (t : list row) :
  competitor ∈ t ->
  competitor !! "id" = Some (VInt competitor_id) ->
  Forall (fun other => other !! "id" = Some (VInt competitor_id) -> other = competitor) t ->
  exists rest,
    List.filter (matches (eq_ "id" (VInt competitor_id))) t = competitor :: rest.
Proof.
  intros Hin Hid Hkey. induction t as [|r t IH]; [by apply elem_of_nil in Hin|].
  apply Forall_cons in Hkey as [Hr Hkey]. simpl.
  destruct (decide (r !! "id" = Some (VInt competitor_id))) as [Heq|Hne].
  - rewrite bool_decide_eq_true_2 by done. rewrite (Hr Heq). by eexists.
  - rewrite bool_decide_eq_false_2 by done.
    apply elem_of_cons in Hin as [->|Hin]; [done|]. by apply IH.
Qed.

(** No row carries the id: the select by that id is empty. *)
Lemma filter_absent_key competitor_id (t : list row) :
  Forall (fun r => r !! "id" <> Some (VInt competitor_id)) t ->
  List.filter (matches (eq_ "id" (VInt competitor_id))) t = [].
Proof.
  induction 1 as [|r t Hr _ IH]; [reflexivity|]. simpl.
  by rewrite bool_decide_eq_false_2.
Qed.

(** C7.  When the select-by-id of the single-update route returns no row,
    the select is the only remote call of the request: no completion call
    and no update call is issued, the completion service is as it was and
    the store is in the state the select itself left it in.  Over the table
    store, when no row carries the id, the table after the request is the
    table before it. *)
Theorem update_single_absent_id_issues_no_write :
  (forall (L S : Type) (cl : Clients L S) competitor_id (w : world L S) s',
      execute cl (select_by_id competitor_id) (store w) = (Returned [], s') ->
      calls (snd (POST_update_single cl competitor_id w))
      = calls w ++ [StoreCall (select_by_id competitor_id)]
      /\ store (snd (POST_update_single cl competitor_id w)) = s'
      /\ llm (snd (POST_update_single cl competitor_id w)) = llm w)
  /\ (forall answer competitor_id (w : world unit (list row)),
        Forall (fun r => r !! "id" <> Some (VInt competitor_id)) (store w) ->
        calls (snd (POST_update_single (table_clients answer) competitor_id w))
        = calls w ++ [StoreCall (select_by_id competitor_id)]
        /\ store (snd (POST_update_single (table_clients answer) competitor_id w))
           = store w).
Proof.
  split.
  - intros L S cl competitor_id w s' Hsel.
    by rewrite (update_single_not_found cl _ _ _ Hsel).
  - intros answer competitor_id w Habsent.
    assert (execute (table_clients answer) (select_by_id competitor_id) (store w)
            = (Returned [], store w)) as Hsel.
    { simpl. by rewrite table_execute_select_by_id, filter_absent_key. }
    by rewrite (update_single_not_found (table_clients answer) _ _ _ Hsel).
Qed.

#[local] Opaque table_execute.

(** C2.  Over the table store: [competitor] is the row of the table whose id
    is [competitor_id], and the completion client answers the prompt for its
    name with a first choice whose content is [text].  Then the single-update
    route answers 200 with the record of that row whose
    [competitor_positioning] is exactly [text.strip()]; the update call it
    has sent to the store carries that same string, and the table holds it
    afterwards. *)
Theorem update_single_returns_and_stores_trimmed_completion
    answer competitor_id (w : world unit (list row)) competitor n r c cs text :
  competitor ∈ store w ->
  competitor !! "id" = Some (VInt competitor_id) ->
  competitor !! "competitor_name" = Some (VStr n) ->
  Forall (fun other => other !! "id" = Some (VInt competitor_id) -> other = competitor)
         (store w) ->
  answer "gpt-4" (positioning_messages (VStr n)) = Returned r ->
  Completion.choices r = c :: cs ->
  Completion.content (Completion.message c) = Some text ->
  fst (POST_update_single (table_clients answer) competitor_id w)
  = Response 200 (JCompetitor {| id := competitor_id;
                                 competitor_name := n;
                                 competitor_positioning := Some (strip text) |})
  /\ calls (snd (POST_update_single (table_clients answer) competitor_id w))
     = calls w ++ [ StoreCall (select_by_id competitor_id);
                    CompletionCall "gpt-4" (positioning_messages (VStr n));
                    StoreCall (update_query (VInt competitor_id) (strip text)) ]
  /\ store (snd (POST_update_single (table_clients answer) competitor_id w))
     = write (eq_ "id" (VInt competitor_id))
             {[ "competitor_positioning" := VStr (strip text) ]} <$> store w.
Proof.
  intros Hin Hid Hname Hkey Hans Hch Htext.
  destruct (filter_by_key competitor_id competitor (store w) Hin Hid Hkey)
    as [rest Hsel].
  assert (model_validate ({[ "competitor_positioning" := VStr (strip text) ]} ∪ competitor)
          = Returned {| id := competitor_id; competitor_name := n;
                        competitor_positioning := Some (strip text) |}) as Hvalid.
  { unfold model_validate. rewrite !lookup_union.
    rewrite lookup_singleton_eq, !lookup_singleton_ne by done.
    rewrite Hid, Hname. simpl. by destruct (competitor !! "competitor_positioning"). }
  run. rewrite table_execute_select_by_id, Hsel. simpl.
  unfold getitem. rewrite Hname. unfold ret. simpl.
  rewrite Hans. simpl. rewrite Hch. simpl. rewrite Htext. simpl.
  rewrite table_execute_update, Hsel. simpl. rewrite Hvalid. simpl.
  split; [reflexivity|]. split; [|reflexivity].
  by rewrite <- !(assoc_L (++)).
Qed.

(** C10.  Every store call that [update_competitor_positioning] issues is an
    update whose payload has the single key [competitor_positioning]; and
    over the table store the call leaves the number of rows, and every column
    other than [competitor_positioning] of every row, as they were. *)
Theorem update_writes_only_the_positioning_column :
  (forall (L S : Type) (cl : Clients L S) competitor_id name (w : world L S),
      exists issued,
        calls (snd (update_competitor_positioning cl competitor_id name w))
        = calls w ++ issued
        /\ Forall writes_only_positioning issued)
  /\ (forall answer competitor_id name (w : world unit (list row)),
        length (store (snd (update_competitor_positioning
                              (table_clients answer) competitor_id name w)))
        = length (store w)
        /\ forall (j : nat) (before after : row) column,
             store w !! j = Some before ->
             store (snd (update_competitor_positioning
                           (table_clients answer) competitor_id name w)) !! j
             = Some after ->
             column <> "competitor_positioning" ->
             after !! column = before !! column).
Proof.
  split.
  - intros L S cl competitor_id name w.
    destruct (update_competitor_positioning_effect cl competitor_id name w)
      as [[Hcalls _]|(positioning & Hcalls & _)];
      eexists; (split; [exact Hcalls|]).
    + by repeat constructor.
    + by repeat constructor.
  - intros answer competitor_id name w.
    destruct (update_competitor_positioning_effect
                (table_clients answer) competitor_id name w)
      as [[_ Hstore]|(positioning & _ & Hstore)]; rewrite Hstore.
    + split; [reflexivity|]. congruence.
    + simpl. rewrite table_execute_update. simpl.
      split; [by rewrite length_fmap|].
      intros j before after column Hbefore Hafter Hne.
      rewrite list_lookup_fmap, Hbefore in Hafter. injection Hafter as <-.
      by apply write_other_columns.
Qed.

(** ** Process start *)

(** Entering the lifespan never raises: a missing or empty variable only
    changes the log record it emits. *)
Lemma lifespan_startup_returns environ :
  fst (lifespan_startup environ) = Returned tt.
Proof. reflexivity. Qed.

(** C8, as amended.  The lifespan hook never fails on a missing variable: it
    logs an error and goes on.  Process start as a whole returns exactly when
    the two client constructors called at import time both return on the
    values read from the environment; when one of them raises, the process
    fails at import, before the lifespan hook has logged anything. *)
Theorem startup_succeeds_iff_constructors_accept OpenAI create_client environ :
  fst (lifespan_startup environ) = Returned tt
  /\ (forallb truthy [ getenv environ "OPENAI_API_KEY";
                       getenv environ "SUPABASE_URL";
                       getenv environ "SUPABASE_KEY" ] = false ->
      (ERROR, "Missing required environment variables!")
        ∈ snd (lifespan_startup environ))
  /\ (fst (startup OpenAI create_client environ) = Returned tt
      <-> OpenAI (getenv environ "OPENAI_API_KEY") = Returned tt
          /\ create_client (getenv environ "SUPABASE_URL")
                           (getenv environ "SUPABASE_KEY") = Returned tt)
  /\ (forall e, fst (startup OpenAI create_client environ) = Raised e ->
                snd (startup OpenAI create_client environ) = []).
Proof.
  split; [reflexivity|]. split; [|split].
  - intros Hmissing. unfold lifespan_startup. rewrite Hmissing. simpl.
    do 2 apply list_elem_of_further. apply list_elem_of_here.
  - unfold startup, import_module.
    destruct (OpenAI (getenv environ "OPENAI_API_KEY")) as [[]|e]; simpl.
    + destruct (create_client _ _) as [[]|e]; simpl; split;
        try done; intros [_ ?]; done.
    + split; [done | intros [? _]; done].
  - intros e. unfold startup.
    destruct (import_module OpenAI create_client environ) as [[]|e']; simpl;
      [discriminate | done].
Qed.

(** C8, the claim as stated.  With client constructors that reject an absent
    key, a missing completion-API key makes the import of the module raise:
    the process does not start, and the lifespan hook never gets to log the
    absence. *)
Lemma startup_fails_without_api_key :
  startup OpenAI_requiring_key create_client_requiring_both environ_without_api_key
  = (Raised (ClientError "The api_key client option must be set either by passing api_key to the client or by setting the OPENAI_API_KEY environment variable"),
     []).
Proof. reflexivity. Qed.

#[local] Transparent table_execute.

(** ** The properties at work on sample data *)

(** The health check answers 200 whatever the state of the services. *)
Lemma health_check {L S} (w : world L S) :
  fst (GET_root w) = Response 200 (JStatus "API is running").
Proof. reflexivity. Qed.

(** The store holds Acme without an analysis, the completion client answers
    with a padded paragraph: the single-update route returns the record with
    the trimmed paragraph. *)
Example acme_is_analysed :
  fst (POST_update_single (table_clients padded_answer) 1 (fresh tt [acme]))
  = Response 200 (JCompetitor
                    {| id := 1; competitor_name := "Acme";
                       competitor_positioning :=
                         Some "Acme targets price-sensitive SMEs..." |}).
Proof. vm_compute. reflexivity. Qed.

(** A row without a name makes the except clause of line 139 itself raise:
    the batch stops and the route answers 500. *)
Example batch_stops_on_an_unnamed_row :
  fst (POST_update_all (table_clients padded_answer) (fresh tt [unnamed; acme]))
  = Response 500 (JDetail "'competitor_name'").
Proof. vm_compute. reflexivity. Qed.

Lemma update_single_absent_id_answers_500_witness :
  execute (table_clients padded_answer) (select_by_id 3) [acme; globex]
  = (Returned [], [acme; globex])
  /\ fst (POST_update_single (table_clients padded_answer) 3 (fresh tt [acme; globex]))
     = Response 500 (JDetail "404: Competitor not found")
  /\ fst (POST_update_single (table_clients padded_answer) 3 (fresh tt [acme; globex]))
     <> Response 404 (JDetail "Competitor not found").
Proof.
  split; [reflexivity|].
  apply (update_single_absent_id_answers_500
           (table_clients padded_answer) 3 (fresh tt [acme; globex]) [acme; globex]).
  reflexivity.
Defined.

Lemma update_single_absent_id_issues_no_write_witness :
  llm (snd (POST_update_single (table_clients padded_answer) 3
                               (fresh tt [acme; globex]))) = tt
  /\ calls (snd (POST_update_single (table_clients padded_answer) 3
                                    (fresh tt [acme; globex])))
     = [StoreCall (select_by_id 3)]
  /\ store (snd (POST_update_single (table_clients padded_answer) 3
                                    (fresh tt [acme; globex])))
     = [acme; globex].
Proof.
  split.
  - apply (proj1 update_single_absent_id_issues_no_write
             unit (list row) (table_clients padded_answer) 3
             (fresh tt [acme; globex]) [acme; globex]).
    reflexivity.
  - apply (proj2 update_single_absent_id_issues_no_write
             padded_answer 3 (fresh tt [acme; globex])).
    constructor; [intros Hid; vm_compute in Hid; discriminate Hid|].
    constructor; [intros Hid; vm_compute in Hid; discriminate Hid | constructor].
Defined.

Lemma update_all_nothing_to_update_witness :
  fst (POST_update_all (table_clients padded_answer)
                       (fresh tt [competitor_row 1 "Acme" (VStr "Premium.")]))
  = Response 200 (JStatus "No competitors found needing updates")
  /\ calls (snd (POST_update_all (table_clients padded_answer)
                   (fresh tt [competitor_row 1 "Acme" (VStr "Premium.")])))
     = [StoreCall select_unanalysed]
  /\ store (snd (POST_update_all (table_clients padded_answer)
                   (fresh tt [competitor_row 1 "Acme" (VStr "Premium.")])))
     = [competitor_row 1 "Acme" (VStr "Premium.")].
Proof.
  apply (update_all_nothing_to_update (table_clients padded_answer)
           (fresh tt [competitor_row 1 "Acme" (VStr "Premium.")])
           [competitor_row 1 "Acme" (VStr "Premium.")]).
  reflexivity.
Defined.

Lemma failed_completion_issues_no_store_call_witness :
  fst (update_competitor_positioning (table_clients no_answer)
         (VInt 1) (VStr "Acme") (fresh tt [acme]))
  = Raised (ClientError "service unavailable")
  /\ calls (snd (update_competitor_positioning (table_clients no_answer)
                   (VInt 1) (VStr "Acme") (fresh tt [acme])))
     = [CompletionCall "gpt-4" (positioning_messages (VStr "Acme"))]
  /\ store (snd (update_competitor_positioning (table_clients no_answer)
                   (VInt 1) (VStr "Acme") (fresh tt [acme])))
     = [acme].
Proof.
  apply (failed_completion_issues_no_store_call (table_clients no_answer)
           (VInt 1) (VStr "Acme") (fresh tt [acme])
           (ClientError "service unavailable") tt).
  reflexivity.
Defined.

Lemma update_returning_no_rows_raises_index_error_witness :
  fst (update_competitor_positioning (table_clients padded_answer)
         (VInt 9) (VStr "Ghost") (fresh tt [acme]))
  = Raised (IndexError "list index out of range")
  /\ calls (snd (update_competitor_positioning (table_clients padded_answer)
                   (VInt 9) (VStr "Ghost") (fresh tt [acme])))
     = [ CompletionCall "gpt-4" (positioning_messages (VStr "Ghost"));
         StoreCall (update_query (VInt 9) "Acme targets price-sensitive SMEs...") ].
Proof.
  apply (update_returning_no_rows_raises_index_error
           (table_clients padded_answer) (VInt 9) (VStr "Ghost") (fresh tt [acme])
           (completion_of ("  Acme targets price-sensitive SMEs..." +:+ nl)) tt
           {| Completion.message :=
                {| Completion.content :=
                     Some ("  Acme targets price-sensitive SMEs..." +:+ nl) |} |}
           [] ("  Acme targets price-sensitive SMEs..." +:+ nl) [acme]);
    reflexivity.
Defined.

Lemma escaping_exceptions_answer_500_witness :
  fst (POST_update_single (unreachable_clients padded_answer) 1 (fresh tt [acme]))
  = Response 500 (JDetail "connection refused")
  /\ fst (POST_update_all (unreachable_clients padded_answer) (fresh tt [acme]))
     = Response 500 (JDetail "connection refused")
  /\ fst (POST_update_all (table_clients padded_answer) (fresh tt [unnamed]))
     = Response 500 (JDetail "'competitor_name'").
Proof.
  split; [|split].
  - eapply (proj1 (escaping_exceptions_answer_500 (unreachable_clients padded_answer))
              1 (fresh tt [acme]) (ClientError "connection refused")).
    reflexivity.
  - apply (proj2 (proj2 (escaping_exceptions_answer_500
                            (unreachable_clients padded_answer)))
             (fresh tt [acme]) (ClientError "connection refused") [acme]).
    reflexivity.
  - eapply (proj1 (proj2 (escaping_exceptions_answer_500
                             (table_clients padded_answer)))
              (fresh tt [unnamed]) (KeyError "competitor_name")).
    reflexivity.
Defined.

Lemma update_all_drops_only_the_failing_row_witness :
  exists updated,
    fst (POST_update_all (table_clients answer_unless_globex)
                         (fresh tt [acme; globex; initech]))
    = Response 200 (JBatch "success" 2 updated)
    /\ length updated = 2%nat
    /\ updated !! 0%nat
       = Some {| id := 1; competitor_name := "Acme";
                 competitor_positioning := Some "Acme targets price-sensitive SMEs..." |}
    /\ updated !! 1%nat
       = Some {| id := 3; competitor_name := "Initech";
                 competitor_positioning := Some "Acme targets price-sensitive SMEs..." |}.
Proof.
  destruct (update_all_drops_only_the_failing_row
              (table_clients answer_unless_globex)
              (fresh tt [acme; globex; initech])
              [acme; globex; initech]
              [listed 1 "Acme"; listed 2 "Globex"; listed 3 "Initech"]
              1%nat (ClientError "rate limit exceeded"))
    as (updated & Hresponse & Hlength & Horder).
  - reflexivity.
  - reflexivity.
  - exists (listed 2 "Globex"). split; [reflexivity|]. by eexists.
  - intros [|[|[|j]]] Hne Hlt.
    + eexists. vm_compute. reflexivity.
    + exfalso. by apply Hne.
    + eexists. vm_compute. reflexivity.
    + simpl in Hlt. lia.
  - exists updated. split; [exact Hresponse|]. split; [exact Hlength|]. split.
    + apply (Horder 0%nat). vm_compute. reflexivity.
    + apply (Horder 2%nat). vm_compute. reflexivity.
Defined.

Lemma update_single_returns_and_stores_trimmed_completion_witness :
  fst (POST_update_single (table_clients padded_answer) 2 (fresh tt [acme; globex]))
  = Response 200 (JCompetitor
                    {| id := 2; competitor_name := "Globex";
                       competitor_positioning :=
                         Some "Acme targets price-sensitive SMEs..." |})
  /\ calls (snd (POST_update_single (table_clients padded_answer) 2
                                    (fresh tt [acme; globex])))
     = [ StoreCall (select_by_id 2);
         CompletionCall "gpt-4" (positioning_messages (VStr "Globex"));
         StoreCall (update_query (VInt 2) "Acme targets price-sensitive SMEs...") ]
  /\ store (snd (POST_update_single (table_clients padded_answer) 2
                                    (fresh tt [acme; globex])))
     = [ acme;
         <["competitor_positioning" := VStr "Acme targets price-sensitive SMEs..."]>
           globex ].
Proof.
  apply (update_single_returns_and_stores_trimmed_completion
           padded_answer 2 (fresh tt [acme; globex]) globex "Globex"
           (completion_of ("  Acme targets price-sensitive SMEs..." +:+ nl))
           {| Completion.message :=
                {| Completion.content :=
                     Some ("  Acme targets price-sensitive SMEs..." +:+ nl) |} |}
           [] ("  Acme targets price-sensitive SMEs..." +:+ nl)).
  - apply list_elem_of_further, list_elem_of_here.
  - reflexivity.
  - reflexivity.
  - constructor; [intros Hid; vm_compute in Hid; discriminate Hid|].
    constructor; [intros _; reflexivity | constructor].
  - reflexivity.
  - reflexivity.
  - reflexivity.
Defined.

Lemma update_writes_only_the_positioning_column_witness :
  (exists issued,
      calls (snd (update_competitor_positioning (table_clients padded_answer)
                    (VInt 2) (VStr "Globex") (fresh tt [acme; globex])))
      = issued /\ Forall writes_only_positioning issued)
  /\ forall after,
       store (snd (update_competitor_positioning (table_clients padded_answer)
                     (VInt 2) (VStr "Globex") (fresh tt [acme; globex]))) !! 1%nat
       = Some after ->
       after !! "country" = Some (VStr "US").
Proof.
  split.
  - apply (proj1 update_writes_only_the_positioning_column
             unit (list row) (table_clients padded_answer)
             (VInt 2) (VStr "Globex") (fresh tt [acme; globex])).
  - intros after Hafter.
    apply (proj2 (proj2 update_writes_only_the_positioning_column
                    padded_answer (VInt 2) (VStr "Globex")
                    (fresh tt [acme; globex]))
             1%nat globex after "country");
      [reflexivity | exact Hafter | discriminate].
Defined.

Lemma startup_succeeds_iff_constructors_accept_witness :
  (ERROR, "Missing required environment variables!")
    ∈ snd (lifespan_startup environ_without_api_key)
  /\ fst (startup (fun _ => Returned tt) (fun _ _ => Returned tt)
                  environ_without_api_key) = Returned tt.
Proof.
  split.
  - apply (proj1 (proj2 (startup_succeeds_iff_constructors_accept
                           OpenAI_requiring_key create_client_requiring_both
                           environ_without_api_key))).
    reflexivity.
  - apply (proj1 (proj2 (proj2 (startup_succeeds_iff_constructors_accept
                                  (fun _ => Returned tt) (fun _ _ => Returned tt)
                                  environ_without_api_key)))).
    split; reflexivity.
Defined.

(** * Further properties of the service *)

Section Routes.
Context {L S : Type} (cl : Clients L S).

(** ** The shape of the responses *)

Lemma update_single_try_returns_record competitor_id w b w' :
  update_single_try cl competitor_id w = (Returned b, w') ->
  exists c, b = JCompetitor c.
Proof.
  unfold update_single_try, bind, ret, raise, log, run_query. simpl.
  destruct (execute cl (select_by_id competitor_id) (store w)) as [[data|e] s'];
    [|discriminate].
  destruct data as [|competitor rest]; simpl; [discriminate|].
  destruct (getitem competitor "competitor_name" _) as [[name|e] w1];
    [|discriminate].
  destruct (update_competitor_positioning cl (VInt competitor_id) name w1)
    as [[c|e] w2]; [|discriminate].
  intros [= <- _]. by eexists.
Qed.

Lemma update_all_try_returns_status_or_batch w b w' :
  update_all_try cl w = (Returned b, w') ->
  b = JStatus "No competitors found needing updates"
  \/ exists updated,
      b = JBatch "success" (Z.of_nat (length updated)) updated.
Proof.
  destruct (execute cl select_unanalysed (store w)) as [[data|e] s'] eqn:Hsel.
  - destruct data as [|competitor rest].
    + unfold update_all_try, bind, ret, log, run_query. simpl. rewrite Hsel.
      intros [= <- _]. by left.
    + destruct (update_all_try_loop cl w s' (competitor :: rest) Hsel)
        as (w0 & _ & _ & ->); [done|].
      unfold bind, ret.
      destruct (process_rows cl (competitor :: rest) [] w0) as [[updated|e] w1];
        [|discriminate].
      intros [= <- _]. right. by eexists.
  - unfold update_all_try, bind, ret, log, run_query. simpl. rewrite Hsel.
    discriminate.
Qed.

(** X1.  The single-update route answers 200 with a competitor record or 500 with
    a detail, and nothing else: in particular it never answers 404.  The
    batch route answers 200 with the "nothing to update" status, or 200 with
    a "success" body whose [total_processed] is the length of its
    [updated_competitors], or 500 with a detail. *)
Theorem routes_answer_200_or_500 :
  (forall competitor_id w,
      (exists c,
          fst (POST_update_single cl competitor_id w)
          = Response 200 (JCompetitor c))
      \/ (exists detail,
            fst (POST_update_single cl competitor_id w)
            = Response 500 (JDetail detail)))
  /\ (forall w,
        fst (POST_update_all cl w)
        = Response 200 (JStatus "No competitors found needing updates")
        \/ (exists updated,
              fst (POST_update_all cl w)
              = Response 200 (JBatch "success" (Z.of_nat (length updated)) updated))
        \/ (exists detail,
              fst (POST_update_all cl w) = Response 500 (JDetail detail))).
Proof.
  split.
  - intros competitor_id w.
    unfold POST_update_single, serve, update_single_competitor, try_except.
    destruct (update_single_try cl competitor_id w) as [[b|e] w'] eqn:Htry.
    + left. destruct (update_single_try_returns_record _ _ _ _ Htry) as [c ->].
      by exists c.
    + right. by eexists.
  - intros w.
    unfold POST_update_all, serve, update_all_competitors, try_except.
    destruct (update_all_try cl w) as [[b|e] w'] eqn:Htry.
    + destruct (update_all_try_returns_status_or_batch _ _ _ Htry)
        as [->|[updated ->]]; [by left | right; left; by exists updated].
    + right. right. by eexists.
Qed.

(** ** The orchestrator *)

(** X2.  A completion that comes back without a usable text makes the
    orchestrator raise before any request has gone to the store: with no
    choice at all it is the [IndexError] of [choices[0]], with a first choice
    whose content is [None] it is the [AttributeError] of [None.strip()]. *)
Theorem completion_without_text_raises_before_any_write
    competitor_id name w r l' :
  chat_completions_create cl "gpt-4" (positioning_messages name) (llm w)
  = (Returned r, l') ->
  (Completion.choices r = [] ->
   fst (update_competitor_positioning cl competitor_id name w)
   = Raised (IndexError "list index out of range")
   /\ calls (snd (update_competitor_positioning cl competitor_id name w))
      = calls w ++ [CompletionCall "gpt-4" (positioning_messages name)]
   /\ store (snd (update_competitor_positioning cl competitor_id name w))
      = store w)
  /\ (forall c cs,
        Completion.choices r = c :: cs ->
        Completion.content (Completion.message c) = None ->
        fst (update_competitor_positioning cl competitor_id name w)
        = Raised (AttributeError "'NoneType' object has no attribute 'strip'")
        /\ calls (snd (update_competitor_positioning cl competitor_id name w))
           = calls w ++ [CompletionCall "gpt-4" (positioning_messages name)]
        /\ store (snd (update_competitor_positioning cl competitor_id name w))
           = store w).
Proof.
  intros Hc. split.
  - intros Hch. run. rewrite Hc. simpl. by rewrite Hch.
  - intros c cs Hch Hnone. run. rewrite Hc. simpl. rewrite Hch. simpl.
    by rewrite Hnone.
Qed.

(** The run of the orchestrator once the completion has produced a text. *)
Lemma update_competitor_positioning_after_text
    competitor_id name w r l' c cs text o s' :
  chat_completions_create cl "gpt-4" (positioning_messages name) (llm w)
  = (Returned r, l') ->
  Completion.choices r = c :: cs ->
  Completion.content (Completion.message c) = Some text ->
  execute cl (update_query competitor_id (strip text)) (store w) = (o, s') ->
  update_competitor_positioning cl competitor_id name w
  = match o with
    | Raised e => raise e
    | Returned [] => raise (IndexError "list index out of range")
    | Returned (updated_competitor :: _) =>
        bind (log INFO ("Successfully updated positioning analysis for "
                        +:+ str name))
             (fun _ => match model_validate updated_competitor with
                       | Returned c => ret c
                       | Raised e => raise e
                       end)
    end
      (World l' s'
         (calls w ++ [ CompletionCall "gpt-4" (positioning_messages name);
                       StoreCall (update_query competitor_id (strip text)) ])
         ((logs w ++ [(INFO, "Updating positioning analysis for competitor ID "
                             +:+ str competitor_id +:+ ": " +:+ str name)])
            ++ [(INFO, "Analyzing market positioning for " +:+ str name)])).
Proof.
  intros Hc Hch Htext Hu. run. rewrite Hc. simpl. rewrite Hch. simpl.
  rewrite Htext. simpl. rewrite Hu. simpl. rewrite <- (assoc_L (++)). simpl.
  destruct o as [[|updated_competitor rest]|e]; reflexivity.
Qed.

Lemma update_competitor_positioning_store_after_text
    competitor_id name w r l' c cs text :
  chat_completions_create cl "gpt-4" (positioning_messages name) (llm w)
  = (Returned r, l') ->
  Completion.choices r = c :: cs ->
  Completion.content (Completion.message c) = Some text ->
  calls (snd (update_competitor_positioning cl competitor_id name w))
  = calls w ++ [ CompletionCall "gpt-4" (positioning_messages name);
                 StoreCall (update_query competitor_id (strip text)) ]
  /\ store (snd (update_competitor_positioning cl competitor_id name w))
     = snd (execute cl (update_query competitor_id (strip text)) (store w)).
Proof.
  intros Hc Hch Htext.
  destruct (execute cl (update_query competitor_id (strip text)) (store w))
    as [o s'] eqn:Hu.
  rewrite (update_competitor_positioning_after_text
             _ _ _ _ _ _ _ _ _ _ Hc Hch Htext Hu).
  destruct o as [[|u rest]|e]; try (split; reflexivity).
  unfold bind, log, ret, raise. simpl. by destruct (model_validate u).
Qed.

(** X3.  Once the completion has produced a text, the update with the trimmed
    text is executed on the store whatever happens next: when the store
    raises, returns no row, or returns a row that fails validation, the
    orchestrator raises although the write has been sent. *)
Theorem write_precedes_the_checks
    competitor_id name w r l' c cs text :
  chat_completions_create cl "gpt-4" (positioning_messages name) (llm w)
  = (Returned r, l') ->
  Completion.choices r = c :: cs ->
  Completion.content (Completion.message c) = Some text ->
  calls (snd (update_competitor_positioning cl competitor_id name w))
  = calls w ++ [ CompletionCall "gpt-4" (positioning_messages name);
                 StoreCall (update_query competitor_id (strip text)) ]
  /\ store (snd (update_competitor_positioning cl competitor_id name w))
     = snd (execute cl (update_query competitor_id (strip text)) (store w))
  /\ (forall e s',
        execute cl (update_query competitor_id (strip text)) (store w)
        = (Raised e, s') ->
        fst (update_competitor_positioning cl competitor_id name w) = Raised e)
  /\ (forall updated_competitor rest s' e,
        execute cl (update_query competitor_id (strip text)) (store w)
        = (Returned (updated_competitor :: rest), s') ->
        model_validate updated_competitor = Raised e ->
        fst (update_competitor_positioning cl competitor_id name w) = Raised e).
Proof.
  intros Hc Hch Htext.
  destruct (update_competitor_positioning_store_after_text
              competitor_id name w r l' c cs text Hc Hch Htext) as [Hcalls Hstore].
  split; [exact Hcalls|]. split; [exact Hstore|]. split.
  - intros e s' Hu.
    by rewrite (update_competitor_positioning_after_text
                  _ _ _ _ _ _ _ _ _ _ Hc Hch Htext Hu).
  - intros u rest s' e Hu Hvalid.
    rewrite (update_competitor_positioning_after_text
               _ _ _ _ _ _ _ _ _ _ Hc Hch Htext Hu).
    unfold bind, log, raise. simpl. by rewrite Hvalid.
Qed.

(** X4.  What the analysis returns is the content of the first choice with the
    whitespace at its two ends removed, and nothing else removed: it neither
    starts nor ends with a whitespace character. *)
Theorem analysis_is_the_trimmed_first_choice name w p w' :
  get_market_positioning cl name w = (Returned p, w') ->
  (exists r l' c cs text before after,
      chat_completions_create cl "gpt-4" (positioning_messages name) (llm w)
      = (Returned r, l')
      /\ Completion.choices r = c :: cs
      /\ Completion.content (Completion.message c) = Some text
      /\ text = before +:+ (p +:+ after)
      /\ all_space before = true /\ all_space after = true)
  /\ (forall c, first_char p = Some c -> isspace c = false)
  /\ (forall c, last_char p = Some c -> isspace c = false).
Proof.
  unfold get_market_positioning, bind, ret, raise, log, create, first_item. simpl.
  destruct (chat_completions_create cl "gpt-4" (positioning_messages name) (llm w))
    as [[r|e] l'] eqn:Hc; simpl; [|discriminate].
  destruct (Completion.choices r) as [|c cs] eqn:Hch; simpl; [discriminate|].
  destruct (Completion.content (Completion.message c)) as [text|] eqn:Htext;
    simpl; [|discriminate].
  intros [= <- _].
  destruct (strip_spec text) as ((before & after & Hsplit & Hb & Ha) & Hfirst & Hlast).
  split; [|by split].
  by exists r, l', c, cs, text, before, after.
Qed.

(** ** The single-update route *)

(** The run of the single-update route on a non-empty select. *)
Lemma update_single_run competitor_id w competitor rest s' name :
  execute cl (select_by_id competitor_id) (store w)
  = (Returned (competitor :: rest), s') ->
  competitor !! "competitor_name" = Some name ->
  exists ls,
    POST_update_single cl competitor_id w
    = (match fst (update_competitor_positioning
                    cl (VInt competitor_id) name (fresh (llm w) s')) with
       | Returned c => Response 200 (JCompetitor c)
       | Raised e => Response 500 (JDetail (str_exn e))
       end,
       World (llm (snd (update_competitor_positioning
                          cl (VInt competitor_id) name (fresh (llm w) s'))))
             (store (snd (update_competitor_positioning
                            cl (VInt competitor_id) name (fresh (llm w) s'))))
             (calls w ++ StoreCall (select_by_id competitor_id)
                :: calls (snd (update_competitor_positioning
                                 cl (VInt competitor_id) name
                                 (fresh (llm w) s'))))
             ls).
Proof.
  intros Hsel Hname.
  unfold POST_update_single, serve, update_single_competitor, try_except,
    update_single_try, bind, log, run_query, first_item, getitem.
  cbn [llm store calls logs]. rewrite Hsel. unfold ret at 1 2.
  rewrite Hname. unfold ret at 1.
  rewrite (framed_update_competitor_positioning cl (VInt competitor_id) name
             (World _ _ _ _)).
  cbn [llm store calls logs].
  destruct (update_competitor_positioning cl (VInt competitor_id) name
                                          (fresh (llm w) s')) as [[c|e] w1];
    unfold ret, raise; cbn [fst snd llm store calls logs];
    eexists; by rewrite <- (assoc_L (++)).
Qed.

Lemma update_single_run_without_name competitor_id w competitor rest s' :
  execute cl (select_by_id competitor_id) (store w)
  = (Returned (competitor :: rest), s') ->
  competitor !! "competitor_name" = None ->
  exists ls,
    POST_update_single cl competitor_id w
    = (Response 500 (JDetail "'competitor_name'"),
       World (llm w) s' (calls w ++ [StoreCall (select_by_id competitor_id)]) ls).
Proof.
  intros Hsel Hname. run. rewrite Hsel. simpl.
  unfold getitem. rewrite Hname. by eexists.
Qed.

Lemma update_single_run_select_raises competitor_id w e s' :
  execute cl (select_by_id competitor_id) (store w) = (Raised e, s') ->
  exists ls,
    POST_update_single cl competitor_id w
    = (Response 500 (JDetail (str_exn e)),
       World (llm w) s' (calls w ++ [StoreCall (select_by_id competitor_id)]) ls).
Proof.
  intros Hsel. run. rewrite Hsel. by eexists.
Qed.

(** X5.  With a non-empty select-by-id, the single-update route is the
    orchestrator run on the name of the first selected row, in the services
    as the select left them: a returned record is answered with 200, a raised
    exception with 500 and its text.  The rows after the first play no part. *)
Theorem update_single_wraps_the_orchestrator
    competitor_id w competitor rest s' name :
  execute cl (select_by_id competitor_id) (store w)
  = (Returned (competitor :: rest), s') ->
  competitor !! "competitor_name" = Some name ->
  fst (POST_update_single cl competitor_id w)
  = match fst (update_competitor_positioning cl (VInt competitor_id) name
                                             (fresh (llm w) s')) with
    | Returned c => Response 200 (JCompetitor c)
    | Raised e => Response 500 (JDetail (str_exn e))
    end
  /\ calls (snd (POST_update_single cl competitor_id w))
     = calls w ++ StoreCall (select_by_id competitor_id)
         :: calls (snd (update_competitor_positioning cl (VInt competitor_id) name
                                                      (fresh (llm w) s')))
  /\ store (snd (POST_update_single cl competitor_id w))
     = store (snd (update_competitor_positioning cl (VInt competitor_id) name
                                                 (fresh (llm w) s'))).
Proof.
  intros Hsel Hname.
  by destruct (update_single_run _ _ _ _ _ _ Hsel Hname) as [ls ->].
Qed.

(** X6.  A selected row without a [competitor_name] key makes the route answer
    500 with the text of the [KeyError]; neither the completion client nor
    the store is called after the select. *)
Theorem update_single_row_without_name competitor_id w competitor rest s' :
  execute cl (select_by_id competitor_id) (store w)
  = (Returned (competitor :: rest), s') ->
  competitor !! "competitor_name" = None ->
  fst (POST_update_single cl competitor_id w)
  = Response 500 (JDetail "'competitor_name'")
  /\ calls (snd (POST_update_single cl competitor_id w))
     = calls w ++ [StoreCall (select_by_id competitor_id)]
  /\ store (snd (POST_update_single cl competitor_id w)) = s'.
Proof.
  intros Hsel Hname.
  by destruct (update_single_run_without_name _ _ _ _ _ Hsel Hname) as [ls ->].
Qed.

(** ** The batch route *)

Lemma framed_process_row competitor acc : framed (process_row cl competitor acc).
Proof.
  unfold process_row.
  apply framed_try_except; [|intros e].
  - apply framed_bind; [apply framed_row_update | intros updated].
    apply framed_bind; [apply framed_getitem | intros name].
    apply framed_bind; [apply framed_log | intros _]. apply framed_ret.
  - apply framed_bind; [apply framed_getitem | intros name].
    apply framed_bind; [apply framed_log | intros _]. apply framed_ret.
Qed.

Lemma framed_process_rows data : forall acc, framed (process_rows cl data acc).
Proof.
  induction data as [|competitor rest IH]; intros acc; simpl.
  - apply framed_ret.
  - apply framed_bind; [apply framed_process_row | intros acc'; apply IH].
Qed.

Lemma process_rows_app before after : forall acc w,
  process_rows cl (before ++ after) acc w
  = bind (process_rows cl before acc) (process_rows cl after) w.
Proof.
  induction before as [|competitor before IH]; intros acc w; [reflexivity|].
  simpl. unfold bind.
  destruct (process_row cl competitor acc w) as [[acc'|e] w1]; [|reflexivity].
  by rewrite IH.
Qed.

(** A row without a name cannot be logged by either branch of the per-row
    statement: the [KeyError] of the log line leaves the loop. *)
Lemma process_row_without_name competitor acc w :
  competitor !! "competitor_name" = None ->
  process_row cl competitor acc w = (Raised (KeyError "competitor_name"), w).
Proof.
  intros Hname. unfold process_row, try_except, row_update, bind, getitem.
  rewrite Hname. by destruct (competitor !! "id").
Qed.

Lemma length_successes {A} (os : list (outcome A)) :
  (length (successes os) <= length os)%nat.
Proof.
  induction os as [|[a|e] os IH]; [done| |].
  - rewrite successes_cons_returned. simpl. lia.
  - rewrite successes_cons_raised. simpl. lia.
Qed.

(** X7.  Whatever rows fail, as long as every row has a name to log: the batch
    route answers 200 with the records of the rows whose update returned, in
    the order of the select, and [total_processed] counts them.  A row
    without an [id] key is one of the failures. *)
Theorem update_all_collects_the_successes w s0 data :
  execute cl select_unanalysed (store w) = (Returned data, s0) ->
  data <> [] ->
  Forall (fun competitor => is_Some (competitor !! "competitor_name")) data ->
  fst (POST_update_all cl w)
  = Response 200
      (JBatch "success"
              (Z.of_nat (length (successes (row_outcomes cl data (llm w) s0))))
              (successes (row_outcomes cl data (llm w) s0)))
  /\ (length (successes (row_outcomes cl data (llm w) s0)) <= length data)%nat.
Proof.
  intros Hsel Hne Hnames. split.
  - destruct (update_all_try_loop cl w s0 data Hsel Hne) as (w0 & Hl & Hs & Htry).
    destruct (process_rows_collects cl data [] w0) as [w' Hloop].
    { intros j competitor e Hj _. by eapply Forall_lookup_1 in Hnames. }
    rewrite Hl, Hs in Hloop. simpl in Hloop.
    unfold POST_update_all, serve, update_all_competitors, try_except.
    rewrite Htry. unfold bind. by rewrite Hloop.
  - etrans; [apply length_successes|]. by rewrite length_row_outcomes.
Qed.

(** X8.  A listed row without a [competitor_name] key stops the batch: the rows
    before it have been processed and stay written, the rows after it are
    never looked at, and the route answers 500 with the text of the
    [KeyError]. *)
Theorem update_all_stops_at_a_row_without_name w s0 before competitor after :
  execute cl select_unanalysed (store w)
  = (Returned (before ++ competitor :: after), s0) ->
  Forall (fun c => is_Some (c !! "competitor_name")) before ->
  competitor !! "competitor_name" = None ->
  fst (POST_update_all cl w) = Response 500 (JDetail "'competitor_name'")
  /\ store (snd (POST_update_all cl w))
     = store (snd (process_rows cl before [] (fresh (llm w) s0)))
  /\ llm (snd (POST_update_all cl w))
     = llm (snd (process_rows cl before [] (fresh (llm w) s0))).
Proof.
  intros Hsel Hnames Hname.
  destruct (update_all_try_loop cl w s0 (before ++ competitor :: after) Hsel)
    as (w0 & Hl & Hs & Htry); [by destruct before|].
  destruct (process_rows_collects cl before [] w0) as [w1 Hbefore].
  { intros j c e Hj _. by eapply Forall_lookup_1 in Hnames. }
  pose proof (framed_process_rows before [] w0) as Hframe.
  rewrite Hl, Hs, Hbefore in Hframe.
  destruct (process_rows cl before [] (fresh (llm w) s0)) as [o w2].
  injection Hframe as _ Hw1. cbn [snd].
  assert (update_all_try cl w = (Raised (KeyError "competitor_name"), w1))
    as Hraise.
  { rewrite Htry. unfold bind at 1. rewrite process_rows_app.
    unfold bind at 1. rewrite Hbefore. simpl.
    unfold bind at 1. by rewrite (process_row_without_name _ _ _ Hname). }
  unfold POST_update_all, serve, update_all_competitors, try_except.
  rewrite Hraise. unfold bind, log, raise. simpl. by rewrite Hw1.
Qed.

(** ** What the routes never do *)

Lemma snd_serve (m : M L S body) w : snd (serve m w) = snd (m w).
Proof. unfold serve. by destruct (m w) as [[b|[]] w']. Qed.

Section Steps.
(** A relation between worlds that every step the service can take
    respects: logging, asking "gpt-4" for a completion, and executing a
    disciplined store request. *)
Variable R : world L S -> world L S -> Prop.
Hypothesis R_refl : forall w, R w w.
Hypothesis R_trans : forall w1 w2 w3, R w1 w2 -> R w2 w3 -> R w1 w3.
Hypothesis R_log : forall lv msg, respects R (log lv msg).
Hypothesis R_create : forall messages, respects R (create cl "gpt-4" messages).
Hypothesis R_query :
  forall q, disciplined (StoreCall q) -> respects R (run_query cl q).

Lemma respects_ret {A} (a : A) : respects R (ret a).
Proof. intros w. apply R_refl. Qed.

Lemma respects_raise {A} e : respects (A:=A) R (raise e).
Proof. intros w. apply R_refl. Qed.

Lemma respects_getitem d key : respects R (getitem d key).
Proof. intros w. unfold getitem. destruct (d !! key); apply R_refl. Qed.

Lemma respects_first_item {A} (l : list A) : respects R (first_item l).
Proof. intros w. destruct l; apply R_refl. Qed.

Lemma respects_bind {A B} (m : M L S A) (k : A -> M L S B) :
  respects R m -> (forall a, respects R (k a)) -> respects R (bind m k).
Proof.
  intros Hm Hk w. unfold bind. specialize (Hm w).
  destruct (m w) as [[a|e] w1]; simpl in *; [|done].
  eapply R_trans; [exact Hm | apply Hk].
Qed.

Lemma respects_try_except {A} (m : M L S A) (h : exn -> M L S A) :
  respects R m -> (forall e, respects R (h e)) -> respects R (try_except m h).
Proof.
  intros Hm Hh w. unfold try_except. specialize (Hm w).
  destruct (m w) as [[a|e] w1]; simpl in *; [done|].
  eapply R_trans; [exact Hm | apply Hh].
Qed.

Lemma respects_orchestrator competitor_id name :
  respects R (update_competitor_positioning cl competitor_id name).
Proof.
  unfold update_competitor_positioning, get_market_positioning.
  apply respects_bind; [apply R_log | intros _].
  apply respects_bind.
  { apply respects_bind; [apply R_log | intros _].
    apply respects_bind; [apply R_create | intros r].
    apply respects_bind; [apply respects_first_item | intros c].
    destruct (Completion.content _);
      [apply respects_ret | apply respects_raise]. }
  intros positioning. apply respects_bind.
  { apply R_query. simpl. split; [done|].
    split; [by rewrite dom_singleton_L | by eexists]. }
  intros data. apply respects_bind; [apply respects_first_item | intros u].
  apply respects_bind; [apply R_log | intros _].
  destruct (model_validate u); [apply respects_ret | apply respects_raise].
Qed.

Lemma respects_process_rows data : forall acc,
  respects R (process_rows cl data acc).
Proof.
  induction data as [|competitor rest IH]; intros acc; simpl.
  - apply respects_ret.
  - apply respects_bind; [|intros acc'; apply IH].
    unfold process_row, row_update.
    apply respects_try_except; [|intros e].
    + apply respects_bind.
      { apply respects_bind; [apply respects_getitem | intros v].
        apply respects_bind; [apply respects_getitem | intros name].
        apply respects_orchestrator. }
      intros updated.
      apply respects_bind; [apply respects_getitem | intros name].
      apply respects_bind; [apply R_log | intros _].
      apply respects_ret.
    + apply respects_bind; [apply respects_getitem | intros name].
      apply respects_bind; [apply R_log | intros _].
      apply respects_ret.
Qed.

Lemma respects_update_single competitor_id w :
  R w (snd (POST_update_single cl competitor_id w)).
Proof.
  unfold POST_update_single. rewrite snd_serve. revert w.
  unfold update_single_competitor, update_single_try.
  apply respects_try_except; [|intros e].
  - apply respects_bind; [apply R_log | intros _].
    apply respects_bind; [by apply R_query | intros data].
    apply respects_bind.
    { destruct data; [|apply respects_ret].
      apply respects_bind; [apply R_log | intros _]. apply respects_raise. }
    intros _.
    apply respects_bind; [apply respects_first_item | intros competitor].
    apply respects_bind; [apply respects_getitem | intros name].
    apply respects_bind; [apply respects_orchestrator | intros c].
    apply respects_ret.
  - apply respects_bind; [apply R_log | intros _]. apply respects_raise.
Qed.

Lemma respects_update_all w : R w (snd (POST_update_all cl w)).
Proof.
  unfold POST_update_all. rewrite snd_serve. revert w.
  unfold update_all_competitors, update_all_try.
  apply respects_try_except; [|intros e].
  - apply respects_bind; [apply R_log | intros _].
    apply respects_bind; [by apply R_query | intros data].
    destruct data as [|competitor rest].
    + apply respects_bind; [apply R_log | intros _]. apply respects_ret.
    + apply respects_bind; [apply R_log | intros _].
      apply respects_bind; [apply respects_process_rows | intros u].
      apply respects_ret.
  - apply respects_bind; [apply R_log | intros _]. apply respects_raise.
Qed.

End Steps.

Lemma issued_only_refl (P : call -> Prop) (w : world L S) : issued_only P w w.
Proof. exists []. by rewrite (right_id_L [] (++)). Qed.

Lemma issued_only_trans (P : call -> Prop) (w1 w2 w3 : world L S) :
  issued_only P w1 w2 -> issued_only P w2 w3 -> issued_only P w1 w3.
Proof.
  intros (i1 & Hc1 & Hp1) (i2 & Hc2 & Hp2). exists (i1 ++ i2).
  split; [by rewrite Hc2, Hc1, (assoc_L (++)) | by apply Forall_app].
Qed.

(** X9.  Whatever the clients answer, every remote call either route issues is
    disciplined: completions are asked of "gpt-4" only; store requests go to
    the table "competitors" only; and every update has a payload with the
    single key [competitor_positioning] and an equality filter on [id], so
    no request can write another column or address the rows by anything but
    an id. *)
Theorem routes_issue_only_disciplined_calls :
  (forall competitor_id w, exists issued,
      calls (snd (POST_update_single cl competitor_id w)) = calls w ++ issued
      /\ Forall disciplined issued)
  /\ (forall w, exists issued,
        calls (snd (POST_update_all cl w)) = calls w ++ issued
        /\ Forall disciplined issued).
Proof.
  assert (forall lv msg, respects (issued_only disciplined) (log (L:=L) (S:=S) lv msg))
    as Hlog.
  { intros lv msg w. exists []. by rewrite (right_id_L [] (++)). }
  assert (forall messages,
             respects (issued_only disciplined) (create cl "gpt-4" messages))
    as Hcreate.
  { intros messages w. exists [CompletionCall "gpt-4" messages]. unfold create.
    destruct (chat_completions_create cl "gpt-4" messages (llm w)). simpl.
    split; [done | by constructor]. }
  assert (forall q, disciplined (StoreCall q) ->
                    respects (issued_only disciplined) (run_query cl q))
    as Hquery.
  { intros q Hq w. exists [StoreCall q]. unfold run_query.
    destruct (execute cl q (store w)). simpl. split; [done | by constructor]. }
  split.
  - intros competitor_id w.
    apply (respects_update_single (issued_only disciplined)
             (issued_only_refl _) (issued_only_trans _) Hlog Hcreate Hquery).
  - intros w.
    apply (respects_update_all (issued_only disciplined)
             (issued_only_refl _) (issued_only_trans _) Hlog Hcreate Hquery).
Qed.

End Routes.

(** ** Further properties over the table store *)

Section Table.
Variable answer :
  string -> list message_param -> outcome Completion.ChatCompletion.

Lemma same_other_columns_refl r : same_other_columns r r.
Proof. by intros column _. Qed.

Lemma rows_kept_refl (w : world unit (list row)) : rows_kept w w.
Proof.
  unfold rows_kept. induction (store w); constructor;
    [apply same_other_columns_refl | done].
Qed.

Lemma rows_kept_same_store (w w' : world unit (list row)) :
  store w' = store w -> rows_kept w w'.
Proof.
  unfold rows_kept. intros ->. induction (store w); constructor;
    [apply same_other_columns_refl | done].
Qed.

Lemma rows_kept_trans (w1 w2 w3 : world unit (list row)) :
  rows_kept w1 w2 -> rows_kept w2 w3 -> rows_kept w1 w3.
Proof.
  unfold rows_kept. apply Forall2_trans.
  intros a b c Hab Hbc column Hne. by rewrite Hbc, Hab.
Qed.

(** A disciplined request leaves the rows in place and their other columns
    alone. *)
Lemma disciplined_query_keeps_rows q (t : list row) :
  disciplined (StoreCall q) ->
  Forall2 same_other_columns t (snd (table_execute q t)).
Proof.
  intros [Htable Hop]. unfold table_execute.
  rewrite bool_decide_eq_true_2 by done.
  assert (Forall2 same_other_columns t t) as Hrefl
      by (induction t; constructor; [apply same_other_columns_refl | done]).
  destruct (op q) as [columns|payload]; simpl; [exact Hrefl|].
  destruct Hop as [Hdom _]. apply Forall2_fmap_r.
  clear Hrefl. induction t as [|r t IH]; constructor; [|exact IH].
  intros column Hne. simpl. unfold write.
  destruct (matches (where_ q) r); [|done].
  apply lookup_union_r, not_elem_of_dom. rewrite Hdom. set_solver.
Qed.

(** X10.  Whatever the completion client answers, neither route inserts, deletes
    or reorders rows of the table, and neither changes any column other than
    [competitor_positioning]: ids, names and all other columns of all rows
    are as they were. *)
Theorem routes_keep_rows_and_other_columns :
  (forall competitor_id (w : world unit (list row)),
      Forall2 same_other_columns (store w)
        (store (snd (POST_update_single (table_clients answer) competitor_id w))))
  /\ (forall w : world unit (list row),
        Forall2 same_other_columns (store w)
          (store (snd (POST_update_all (table_clients answer) w)))).
Proof.
  assert (forall lv msg, respects rows_kept (log (L:=unit) (S:=list row) lv msg))
    as Hlog by (intros lv msg w; by apply rows_kept_same_store).
  assert (forall messages,
             respects rows_kept (create (table_clients answer) "gpt-4" messages))
    as Hcreate by (intros messages w; by apply rows_kept_same_store).
  assert (forall q, disciplined (StoreCall q) ->
                    respects rows_kept (run_query (table_clients answer) q))
    as Hquery.
  { intros q Hq w. unfold rows_kept, run_query. simpl.
    pose proof (disciplined_query_keeps_rows q (store w) Hq) as Hkept.
    by destruct (table_execute q (store w)). }
  split.
  - intros competitor_id w.
    apply (respects_update_single (table_clients answer) rows_kept
             rows_kept_refl rows_kept_trans Hlog Hcreate Hquery).
  - intros w.
    apply (respects_update_all (table_clients answer) rows_kept
             rows_kept_refl rows_kept_trans Hlog Hcreate Hquery).
Qed.

Lemma write_other_id competitor_id payload (r : row) :
  r !! "id" <> Some (VInt competitor_id) ->
  write (eq_ "id" (VInt competitor_id)) payload r = r.
Proof.
  intros Hid. unfold write. simpl. by rewrite bool_decide_eq_false_2.
Qed.

(** X11.  A request for one id leaves every row with another id exactly as it
    was, positioning included. *)
Theorem update_single_leaves_other_rows
    competitor_id (w : world unit (list row)) (j : nat) (r : row) :
  store w !! j = Some r ->
  r !! "id" <> Some (VInt competitor_id) ->
  store (snd (POST_update_single (table_clients answer) competitor_id w)) !! j
  = Some r.
Proof.
  intros Hj Hid.
  pose proof (table_execute_select_by_id competitor_id (store w)) as Hsel.
  destruct (List.filter (matches (eq_ "id" (VInt competitor_id))) (store w))
    as [|competitor rest].
  { by rewrite (update_single_not_found (table_clients answer) _ _ _ Hsel). }
  destruct (competitor !! "competitor_name") as [name|] eqn:Hname.
  - destruct (update_single_run (table_clients answer) _ _ _ _ _ _ Hsel Hname)
      as [ls ->]. cbn [snd store].
    destruct (update_competitor_positioning_effect
                (table_clients answer) (VInt competitor_id) name
                (fresh (llm w) (store w)))
      as [[_ ->]|(positioning & _ & ->)]; [exact Hj|].
    change (snd (table_execute (update_query (VInt competitor_id) positioning)
                               (store w)) !! j = Some r).
    rewrite table_execute_update. cbn [snd].
    rewrite list_lookup_fmap, Hj. cbn [fmap option_fmap option_map]. f_equal.
    by apply write_other_id.
  - by destruct (update_single_run_without_name
                   (table_clients answer) _ _ _ _ _ Hsel Hname) as [ls ->].
Qed.

(** *** A batch leaves nothing for the next one *)

Lemma project_listed_lookup (r : row) column :
  column = "id" \/ column = "competitor_name" ->
  project "id, competitor_name" r !! column = r !! column.
Proof.
  intros Hcolumn. unfold project. rewrite bool_decide_eq_false_2 by done.
  change (split_columns "id, competitor_name" "") with ["id"; "competitor_name"].
  rewrite map_lookup_filter. destruct (r !! column) as [v|]; [|done]. simpl.
  rewrite option_guard_True; [done|]. simpl.
  destruct Hcolumn as [->| ->]; set_solver.
Qed.

Lemma select_unanalysed_on_table (t : list row) :
  table_execute select_unanalysed t
  = (Returned (project "id, competitor_name"
                 <$> List.filter (fun r => bool_decide (unanalysed r)) t), t).
Proof. reflexivity. Qed.

Lemma filter_unanalysed_nil (t : list row) :
  List.filter (fun r => bool_decide (unanalysed r)) t = []
  <-> Forall (fun r => ~ unanalysed r) t.
Proof.
  induction t as [|r t IH]; simpl; [by split|].
  destruct (decide (unanalysed r)) as [Hr|Hr].
  - rewrite bool_decide_eq_true_2 by done. split; [done|].
    intros Hall. by apply Forall_cons in Hall as [? _].
  - rewrite bool_decide_eq_false_2 by done. rewrite IH. split.
    + by constructor.
    + intros Hall. by apply Forall_cons in Hall as [_ ?].
Qed.

Lemma update_all_run_nothing (w : world unit (list row)) :
  Forall (fun r => ~ unanalysed r) (store w) ->
  fst (POST_update_all (table_clients answer) w)
  = Response 200 (JStatus "No competitors found needing updates")
  /\ store (snd (POST_update_all (table_clients answer) w)) = store w.
Proof.
  intros Hnone.
  assert (execute (table_clients answer) select_unanalysed (store w)
          = (Returned [], store w)) as Hsel.
  { change (table_execute select_unanalysed (store w) = (Returned [], store w)).
    rewrite select_unanalysed_on_table.
    by rewrite (proj2 (filter_unanalysed_nil (store w)) Hnone). }
  unfold POST_update_all, serve, update_all_competitors, try_except,
    update_all_try, bind, log, run_query. cbn [llm store calls logs].
  by rewrite Hsel.
Qed.

(** The store after the per-row call on a listed row, when the completion
    client answers. *)
Lemma row_update_store_on_table (d : row) v n (w : world unit (list row)) :
  always_answers answer ->
  d !! "id" = Some v ->
  d !! "competitor_name" = Some n ->
  exists positioning,
    store (snd (row_update (table_clients answer) d w))
    = write (eq_ "id" v) {[ "competitor_positioning" := VStr positioning ]}
        <$> store w.
Proof.
  intros Hans Hid Hname.
  destruct (Hans n) as (r & c & cs & text & Ha & Hch & Htext).
  exists (strip text). unfold row_update, bind, getitem.
  rewrite Hid. unfold ret at 1. rewrite Hname. unfold ret at 1.
  destruct (update_competitor_positioning_store_after_text
              (table_clients answer) v n w r (llm w) c cs text) as [_ ->];
    [simpl; by rewrite Ha | done | done |].
  change (snd (table_execute (update_query v (strip text)) (store w))
          = write (eq_ "id" v) {[ "competitor_positioning" := VStr (strip text) ]}
              <$> store w).
  by rewrite table_execute_update.
Qed.

(** The loop over listed rows that all have an id and a name, when the
    completion client answers: provided every row of the table that lacks
    an analysis is among the listed ones, no row lacks one at the end. *)
Lemma process_rows_analyses_every_listed_row data :
  always_answers answer ->
  forall acc (w : world unit (list row)),
    Forall (fun d => is_Some (d !! "id") /\ is_Some (d !! "competitor_name")) data ->
    (forall r, r ∈ store w -> unanalysed r ->
               exists d, d ∈ data /\ d !! "id" = r !! "id") ->
    exists acc' w',
      process_rows (table_clients answer) data acc w = (Returned acc', w')
      /\ Forall (fun r => ~ unanalysed r) (store w').
Proof.
  intros Hans. induction data as [|d rest IH]; intros acc w Hkeys Hlisted.
  - exists acc, w. split; [reflexivity|]. apply Forall_forall. intros r Hr Hun.
    destruct (Hlisted r Hr Hun) as (d & Hd & _). by apply elem_of_nil in Hd.
  - apply Forall_cons in Hkeys as [[[v Hid] [n Hname]] Hkeys].
    destruct (row_update (table_clients answer) d (fresh (llm w) (store w)))
      as [o w1] eqn:Hrun.
    destruct (process_row_outcome (table_clients answer) d acc w o w1 Hrun)
      as (w' & Hrow & _ & Hstore); [by eexists|].
    destruct (row_update_store_on_table d v n (fresh (llm w) (store w))
                Hans Hid Hname) as [positioning Hwrite].
    rewrite Hrun in Hwrite. cbn [snd store fresh] in Hwrite.
    destruct (IH (match o with Returned c => acc ++ [c] | Raised _ => acc end) w'
                Hkeys) as (acc' & w'' & Hrest & Hnone).
    { intros r' Hr' Hun. rewrite Hstore, Hwrite in Hr'.
      apply list_elem_of_fmap in Hr' as (r & -> & Hr).
      unfold write in Hun. simpl in Hun.
      destruct (decide (r !! "id" = Some v)) as [Hmatch|Hmatch].
      - rewrite bool_decide_eq_true_2 in Hun by done.
        unfold unanalysed in Hun.
        rewrite lookup_union_l', lookup_singleton_eq in Hun;
          [discriminate | by rewrite lookup_singleton_eq].
      - rewrite bool_decide_eq_false_2 in Hun by done.
        unfold write. simpl. rewrite bool_decide_eq_false_2 by done.
        destruct (Hlisted r Hr Hun) as (d' & Hd' & Hsame).
        apply elem_of_cons in Hd' as [->|Hd']; [congruence|].
        by exists d'. }
    exists acc', w''. split; [|exact Hnone].
    simpl. unfold bind. by rewrite Hrow.
Qed.

(** X12.  Every row of the table has an id and a name, and the completion client
    answers every prompt with a first choice that has a content.  Then after
    one request to the batch route no row lacks an analysis, so that the next
    request finds nothing to update. *)
Theorem second_batch_finds_nothing (w : world unit (list row)) :
  always_answers answer ->
  Forall (fun r => is_Some (r !! "id") /\ is_Some (r !! "competitor_name"))
         (store w) ->
  Forall (fun r => ~ unanalysed r)
         (store (snd (POST_update_all (table_clients answer) w)))
  /\ fst (POST_update_all (table_clients answer)
                          (snd (POST_update_all (table_clients answer) w)))
     = Response 200 (JStatus "No competitors found needing updates").
Proof.
  intros Hans Hkeys.
  assert (Forall (fun r => ~ unanalysed r)
                 (store (snd (POST_update_all (table_clients answer) w))))
    as Hnone; [|split; [exact Hnone | by apply update_all_run_nothing]].
  pose proof (select_unanalysed_on_table (store w)) as Hsel.
  destruct (List.filter (fun r => bool_decide (unanalysed r)) (store w))
    as [|first rest] eqn:Hfilter.
  { destruct (update_all_run_nothing w) as [_ ->];
      by apply filter_unanalysed_nil. }
  set (data := project "id, competitor_name" <$> first :: rest) in *.
  destruct (update_all_try_loop (table_clients answer) w (store w) data Hsel)
    as (w0 & _ & Hs & Htry); [done|].
  destruct (process_rows_analyses_every_listed_row data Hans [] w0)
    as (updated & w1 & Hloop & Hnone).
  - unfold data. apply Forall_fmap, Forall_forall. intros r Hr. simpl.
    rewrite !project_listed_lookup by auto.
    eapply Forall_forall in Hkeys; [exact Hkeys|].
    assert (r ∈ List.filter (fun r => bool_decide (unanalysed r)) (store w))
      as Hin by (by rewrite Hfilter).
    apply list_elem_of_In, filter_In in Hin as [Hin _].
    by apply list_elem_of_In.
  - rewrite Hs. intros r Hr Hun. exists (project "id, competitor_name" r).
    split; [|by apply project_listed_lookup; left].
    unfold data. rewrite <- Hfilter. apply list_elem_of_fmap_2.
    apply list_elem_of_In, filter_In. split; [by apply list_elem_of_In|].
    by apply bool_decide_eq_true_2.
  - unfold POST_update_all, serve, update_all_competitors, try_except.
    rewrite Htry. unfold bind. by rewrite Hloop.
Qed.

(** *** Asking twice for the same record *)

Lemma validate_written_row competitor_id n positioning (competitor : row) :
  competitor !! "id" = Some (VInt competitor_id) ->
  competitor !! "competitor_name" = Some (VStr n) ->
  model_validate ({[ "competitor_positioning" := VStr positioning ]} ∪ competitor)
  = Returned {| id := competitor_id; competitor_name := n;
                competitor_positioning := Some positioning |}.
Proof.
  intros Hid Hname. unfold model_validate. rewrite !lookup_union.
  rewrite lookup_singleton_eq, !lookup_singleton_ne by done.
  rewrite Hid, Hname. simpl. by destruct (competitor !! "competitor_positioning").
Qed.

(** The run of the single-update route over the table, for the row that
    carries the id, when the completion client answers. *)
Lemma update_single_on_table
    competitor_id (w : world unit (list row)) competitor n r c cs text :
  competitor ∈ store w ->
  competitor !! "id" = Some (VInt competitor_id) ->
  competitor !! "competitor_name" = Some (VStr n) ->
  Forall (fun other => other !! "id" = Some (VInt competitor_id) -> other = competitor)
         (store w) ->
  answer "gpt-4" (positioning_messages (VStr n)) = Returned r ->
  Completion.choices r = c :: cs ->
  Completion.content (Completion.message c) = Some text ->
  fst (POST_update_single (table_clients answer) competitor_id w)
  = Response 200 (JCompetitor {| id := competitor_id;
                                 competitor_name := n;
                                 competitor_positioning := Some (strip text) |})
  /\ store (snd (POST_update_single (table_clients answer) competitor_id w))
     = write (eq_ "id" (VInt competitor_id))
             {[ "competitor_positioning" := VStr (strip text) ]} <$> store w
  /\ calls (snd (POST_update_single (table_clients answer) competitor_id w))
     = calls w ++ [ StoreCall (select_by_id competitor_id);
                    CompletionCall "gpt-4" (positioning_messages (VStr n));
                    StoreCall (update_query (VInt competitor_id) (strip text)) ].
Proof.
  intros Hin Hid Hname Hkey Hans Hch Htext.
  destruct (filter_by_key competitor_id competitor (store w) Hin Hid Hkey)
    as [rest Hfilter].
  pose proof (table_execute_select_by_id competitor_id (store w)) as Hsel.
  rewrite Hfilter in Hsel.
  destruct (update_single_run (table_clients answer) _ _ _ _ _ _ Hsel Hname)
    as [ls ->].
  pose proof (table_execute_update (VInt competitor_id) (strip text) (store w))
    as Hupdate.
  rewrite Hfilter in Hupdate. rewrite fmap_cons in Hupdate.
  rewrite (update_competitor_positioning_after_text
             (table_clients answer) (VInt competitor_id) (VStr n)
             (fresh (llm w) (store w)) r (llm w) c cs text _ _
             ltac:(simpl; by rewrite Hans) Hch Htext Hupdate).
  unfold bind, log, ret. cbn [fst snd llm store calls logs fresh].
  rewrite (validate_written_row _ _ _ _ Hid Hname).
  cbn [fst snd llm store calls logs]. done.
Qed.

Lemma write_twice f payload (r : row) :
  (forall column v, payload !! column = Some v -> column <> "id") ->
  write (eq_ "id" f) payload (write (eq_ "id" f) payload r)
  = write (eq_ "id" f) payload r.
Proof.
  intros Hpayload. unfold write at 2 3. simpl.
  destruct (decide (r !! "id" = Some f)) as [Hid|Hid].
  - rewrite bool_decide_eq_true_2 by done. unfold write. simpl.
    rewrite bool_decide_eq_true_2.
    + by rewrite (assoc_L (∪)), (idemp_L (∪)).
    + rewrite lookup_union_r; [done|].
      destruct (payload !! "id") as [v|] eqn:Hv; [|done].
      by destruct (Hpayload "id" v Hv).
  - rewrite bool_decide_eq_false_2 by done. unfold write. simpl.
    by rewrite bool_decide_eq_false_2.
Qed.

(** X13.  Nothing guards a record that already has its analysis: a second request
    for the same id calls the completion client and the store again.  With
    the completion client answering as before, the response is the same and
    the table is left as the first request left it. *)
Theorem update_single_again_rewrites_the_same
    competitor_id (w : world unit (list row)) competitor n r c cs text :
  competitor ∈ store w ->
  competitor !! "id" = Some (VInt competitor_id) ->
  competitor !! "competitor_name" = Some (VStr n) ->
  Forall (fun other => other !! "id" = Some (VInt competitor_id) -> other = competitor)
         (store w) ->
  answer "gpt-4" (positioning_messages (VStr n)) = Returned r ->
  Completion.choices r = c :: cs ->
  Completion.content (Completion.message c) = Some text ->
  fst (POST_update_single (table_clients answer) competitor_id
         (snd (POST_update_single (table_clients answer) competitor_id w)))
  = fst (POST_update_single (table_clients answer) competitor_id w)
  /\ store (snd (POST_update_single (table_clients answer) competitor_id
                   (snd (POST_update_single (table_clients answer) competitor_id w))))
     = store (snd (POST_update_single (table_clients answer) competitor_id w))
  /\ calls (snd (POST_update_single (table_clients answer) competitor_id
                   (snd (POST_update_single (table_clients answer) competitor_id w))))
     = calls (snd (POST_update_single (table_clients answer) competitor_id w))
         ++ [ StoreCall (select_by_id competitor_id);
              CompletionCall "gpt-4" (positioning_messages (VStr n));
              StoreCall (update_query (VInt competitor_id) (strip text)) ].
Proof.
  intros Hin Hid Hname Hkey Hans Hch Htext.
  destruct (update_single_on_table competitor_id w competitor n r c cs text
              Hin Hid Hname Hkey Hans Hch Htext) as (Hfst & Hstore & _).
  set (payload := {[ "competitor_positioning" := VStr (strip text) ]} : row) in *.
  assert (write (eq_ "id" (VInt competitor_id)) payload competitor
          = payload ∪ competitor) as Hwritten.
  { unfold write. simpl. by rewrite bool_decide_eq_true_2. }
  assert (forall other : row,
             write (eq_ "id" (VInt competitor_id)) payload other !! "id"
             = other !! "id") as Hkeeps_id.
  { intros other. by apply write_other_columns. }
  assert (write (eq_ "id" (VInt competitor_id)) payload competitor
          !! "competitor_name" = competitor !! "competitor_name") as Hkeeps_name.
  { by apply write_other_columns. }
  destruct (update_single_on_table competitor_id
              (snd (POST_update_single (table_clients answer) competitor_id w))
              (payload ∪ competitor) n r c cs text)
    as (Hfst' & Hstore' & Hcalls'); try done.
  - rewrite Hstore, <- Hwritten. by apply list_elem_of_fmap_2.
  - by rewrite <- Hwritten, Hkeeps_id.
  - by rewrite <- Hwritten, Hkeeps_name.
  - rewrite Hstore. apply Forall_fmap. eapply Forall_impl; [exact Hkey|].
    intros other Hother. simpl. rewrite Hkeeps_id. intros Hsame.
    by rewrite (Hother Hsame).
  - rewrite Hfst', Hfst. split; [done|]. split; [|exact Hcalls'].
    rewrite Hstore', Hstore, <- list_fmap_compose.
    apply list_fmap_ext. intros _ other _. simpl. apply write_twice.
    intros column v Hv. unfold payload in Hv.
    apply lookup_singleton_Some in Hv as [<- _]. done.
Qed.

End Table.

(** ** The lifespan hook *)

Lemma truthy_false v : truthy v = false <-> v = None \/ v = Some "".
Proof.
  unfold truthy. destruct v as [s|]; [|by intuition].
  destruct (decide (s = "")) as [->|Hs].
  - rewrite bool_decide_eq_true_2 by done. by intuition.
  - rewrite bool_decide_eq_false_2 by done. simpl.
    split; [done|]. intros [|[=]]; done.
Qed.

Lemma truthy_true v : truthy v = true <-> exists s, v = Some s /\ s <> "".
Proof.
  unfold truthy. destruct v as [s|].
  - destruct (decide (s = "")) as [->|Hs].
    + rewrite bool_decide_eq_true_2 by done. simpl.
      split; [done|]. by intros (s & [= <-] & ?).
    + rewrite bool_decide_eq_false_2 by done. simpl.
      split; [by exists s | done].
  - split; [done|]. by intros (s & ? & _).
Qed.

Lemma all_truthy (environ : gmap string string) (names : list string) :
  forallb truthy ((fun name => environ !! name) <$> names) = true
  <-> forall name, name ∈ names -> exists v, environ !! name = Some v /\ v <> "".
Proof.
  induction names as [|k names IH]; simpl.
  - split; [|done]. intros _ name Hname. by apply elem_of_nil in Hname.
  - rewrite andb_true_iff, IH, truthy_true. split.
    + intros [Hk Hrest] name Hname.
      apply elem_of_cons in Hname as [->|Hname]; [done | by apply Hrest].
    + intros Hall. split; [apply Hall, list_elem_of_here|].
      intros name Hname. by apply Hall, list_elem_of_further.
Qed.

Lemma some_falsy (environ : gmap string string) (names : list string) :
  forallb truthy ((fun name => environ !! name) <$> names) = false
  <-> exists name,
      name ∈ names /\ (environ !! name = None \/ environ !! name = Some "").
Proof.
  induction names as [|k names IH]; simpl.
  - split; [done|]. intros (name & Hname & _). by apply elem_of_nil in Hname.
  - rewrite andb_false_iff, IH, truthy_false. split.
    + intros [Hk|(name & Hname & Hmissing)].
      * exists k. split; [apply list_elem_of_here | done].
      * exists name. split; [by apply list_elem_of_further | done].
    + intros (name & Hname & Hmissing).
      apply elem_of_cons in Hname as [->|Hname]; [by left|].
      right. by exists name.
Qed.

(** X14.  The hook logs three records and never raises.  The third is the error
    "Missing required environment variables!" exactly when one of the three
    variables is unset or set to the empty string; otherwise it reports that
    all variables are set. *)
Theorem lifespan_reports_unset_or_empty_variables (environ : gmap string string) :
  fst (lifespan_startup environ) = Returned tt
  /\ length (snd (lifespan_startup environ)) = 3%nat
  /\ ((ERROR, "Missing required environment variables!")
        ∈ snd (lifespan_startup environ)
      <-> exists name,
          name ∈ ["OPENAI_API_KEY"; "SUPABASE_URL"; "SUPABASE_KEY"]
          /\ (environ !! name = None \/ environ !! name = Some ""))
  /\ ((INFO, "All required environment variables are set")
        ∈ snd (lifespan_startup environ)
      <-> forall name,
          name ∈ ["OPENAI_API_KEY"; "SUPABASE_URL"; "SUPABASE_KEY"] ->
          exists v, environ !! name = Some v /\ v <> "").
Proof.
  unfold lifespan_startup, getenv. cbn [fst snd].
  change [ environ !! "OPENAI_API_KEY"; environ !! "SUPABASE_URL";
           environ !! "SUPABASE_KEY" ]
    with ((fun name => environ !! name)
            <$> ["OPENAI_API_KEY"; "SUPABASE_URL"; "SUPABASE_KEY"]).
  rewrite <- all_truthy, <- some_falsy.
  split; [done|]. split; [done|].
  destruct (forallb truthy _); split; split; try done.
  - intros Hin. repeat (apply elem_of_cons in Hin as [[=]|Hin]).
    by apply elem_of_nil in Hin.
  - intros _. do 2 apply list_elem_of_further. apply list_elem_of_here.
  - intros _. do 2 apply list_elem_of_further. apply list_elem_of_here.
  - intros Hin. repeat (apply elem_of_cons in Hin as [[=]|Hin]).
    by apply elem_of_nil in Hin.
Qed.

(** ** The further properties at work on sample data *)

Lemma completion_without_text_raises_before_any_write_witness :
  (fst (update_competitor_positioning (table_clients answer_without_choice)
          (VInt 1) (VStr "Acme") (fresh tt [acme]))
   = Raised (IndexError "list index out of range")
   /\ calls (snd (update_competitor_positioning (table_clients answer_without_choice)
                    (VInt 1) (VStr "Acme") (fresh tt [acme])))
      = [CompletionCall "gpt-4" (positioning_messages (VStr "Acme"))]
   /\ store (snd (update_competitor_positioning (table_clients answer_without_choice)
                    (VInt 1) (VStr "Acme") (fresh tt [acme])))
      = [acme])
  /\ (fst (update_competitor_positioning (table_clients answer_without_content)
             (VInt 1) (VStr "Acme") (fresh tt [acme]))
      = Raised (AttributeError "'NoneType' object has no attribute 'strip'")
      /\ calls (snd (update_competitor_positioning (table_clients answer_without_content)
                       (VInt 1) (VStr "Acme") (fresh tt [acme])))
         = [CompletionCall "gpt-4" (positioning_messages (VStr "Acme"))]
      /\ store (snd (update_competitor_positioning (table_clients answer_without_content)
                       (VInt 1) (VStr "Acme") (fresh tt [acme])))
         = [acme]).
Proof.
  split.
  - apply (proj1 (completion_without_text_raises_before_any_write
                    (table_clients answer_without_choice) (VInt 1) (VStr "Acme")
                    (fresh tt [acme]) {| Completion.choices := [] |} tt eq_refl)).
    reflexivity.
  - apply (proj2 (completion_without_text_raises_before_any_write
                    (table_clients answer_without_content) (VInt 1) (VStr "Acme")
                    (fresh tt [acme]) _ tt eq_refl)
             {| Completion.message := {| Completion.content := None |} |} []);
      reflexivity.
Defined.

Lemma write_precedes_the_checks_witness :
  execute (table_clients padded_answer)
          (update_query (VInt 5) (strip padded_text)) [anonymous]
  = (Returned [ <["competitor_positioning" := VStr (strip padded_text)]> anonymous ],
     [ <["competitor_positioning" := VStr (strip padded_text)]> anonymous ])
  /\ fst (update_competitor_positioning (table_clients padded_answer)
            (VInt 5) VNone (fresh tt [anonymous]))
     = Raised (ValidationError "validation error for CompetitorResponse").
Proof.
  assert (execute (table_clients padded_answer)
                  (update_query (VInt 5) (strip padded_text)) [anonymous]
          = (Returned [ <["competitor_positioning" := VStr (strip padded_text)]>
                          anonymous ],
             [ <["competitor_positioning" := VStr (strip padded_text)]> anonymous ]))
    as Hupdate by reflexivity.
  split; [exact Hupdate|].
  apply (proj2 (proj2 (proj2 (write_precedes_the_checks
                                (table_clients padded_answer) (VInt 5) VNone
                                (fresh tt [anonymous])
                                (completion_of padded_text) tt padded_choice []
                                padded_text eq_refl eq_refl eq_refl)))
           _ _ _ _ Hupdate).
  reflexivity.
Defined.

Lemma analysis_is_the_trimmed_first_choice_witness :
  exists before after,
    padded_text = before +:+ ("Acme targets price-sensitive SMEs..." +:+ after)
    /\ all_space before = true /\ all_space after = true.
Proof.
  destruct (analysis_is_the_trimmed_first_choice
              (table_clients padded_answer) (VStr "Acme") (fresh tt [acme])
              "Acme targets price-sensitive SMEs..."
              (snd (get_market_positioning (table_clients padded_answer)
                      (VStr "Acme") (fresh tt [acme]))))
    as ((r & l' & c & cs & text & before & after & Hc & Hch & Htext & Hsplit & Hb & Ha)
        & _ & _).
  - reflexivity.
  - injection Hc as <-. injection Hch as <- _. injection Htext as <-.
    by exists before, after.
Defined.

Lemma update_single_wraps_the_orchestrator_witness :
  fst (POST_update_single (table_clients no_answer) 1 (fresh tt [acme; globex]))
  = Response 500 (JDetail "service unavailable")
  /\ calls (snd (POST_update_single (table_clients no_answer) 1
                                    (fresh tt [acme; globex])))
     = [ StoreCall (select_by_id 1);
         CompletionCall "gpt-4" (positioning_messages (VStr "Acme")) ].
Proof.
  destruct (update_single_wraps_the_orchestrator
              (table_clients no_answer) 1 (fresh tt [acme; globex])
              acme [] [acme; globex] (VStr "Acme") eq_refl eq_refl)
    as (Hresponse & Hcalls & _).
  split; [exact Hresponse | exact Hcalls].
Defined.

Lemma update_single_row_without_name_witness :
  fst (POST_update_single (table_clients padded_answer) 7 (fresh tt [acme; unnamed]))
  = Response 500 (JDetail "'competitor_name'")
  /\ calls (snd (POST_update_single (table_clients padded_answer) 7
                                    (fresh tt [acme; unnamed])))
     = [StoreCall (select_by_id 7)]
  /\ store (snd (POST_update_single (table_clients padded_answer) 7
                                    (fresh tt [acme; unnamed])))
     = [acme; unnamed].
Proof.
  apply (update_single_row_without_name
           (table_clients padded_answer) 7 (fresh tt [acme; unnamed])
           unnamed [] [acme; unnamed]); reflexivity.
Defined.

Lemma update_all_collects_the_successes_witness :
  fst (POST_update_all (table_clients no_answer) (fresh tt [acme; globex]))
  = Response 200 (JBatch "success" 0 []).
Proof.
  destruct (update_all_collects_the_successes
              (table_clients no_answer) (fresh tt [acme; globex]) [acme; globex]
              [listed 1 "Acme"; listed 2 "Globex"])
    as [Hresponse _].
  - reflexivity.
  - discriminate.
  - repeat constructor; by eexists.
  - exact Hresponse.
Defined.

Lemma update_all_stops_at_a_row_without_name_witness :
  fst (POST_update_all (table_clients padded_answer)
                       (fresh tt [acme; unnamed; initech]))
  = Response 500 (JDetail "'competitor_name'")
  /\ store (snd (POST_update_all (table_clients padded_answer)
                                 (fresh tt [acme; unnamed; initech])))
     = [ <["competitor_positioning" := VStr "Acme targets price-sensitive SMEs..."]> acme;
         unnamed; initech ].
Proof.
  destruct (update_all_stops_at_a_row_without_name
              (table_clients padded_answer) (fresh tt [acme; unnamed; initech])
              [acme; unnamed; initech]
              [listed 1 "Acme"] (<["id" := VInt 7]> ∅) [listed 3 "Initech"])
    as (Hresponse & Hstore & _).
  - reflexivity.
  - repeat constructor. by eexists.
  - reflexivity.
  - split; [exact Hresponse|]. rewrite Hstore. reflexivity.
Defined.

Lemma update_single_leaves_other_rows_witness :
  store (snd (POST_update_single (table_clients padded_answer) 1
                                 (fresh tt [acme; globex]))) !! 1%nat
  = Some globex.
Proof.
  apply (update_single_leaves_other_rows padded_answer 1 (fresh tt [acme; globex])
           1%nat globex); [reflexivity|].
  intros Hid. vm_compute in Hid. discriminate Hid.
Defined.

Lemma second_batch_finds_nothing_witness :
  fst (POST_update_all (table_clients padded_answer)
         (snd (POST_update_all (table_clients padded_answer)
                               (fresh tt [acme; globex; initech]))))
  = Response 200 (JStatus "No competitors found needing updates").
Proof.
  apply (second_batch_finds_nothing padded_answer (fresh tt [acme; globex; initech])).
  - intros name. by exists (completion_of padded_text), padded_choice, [], padded_text.
  - repeat constructor; by eexists.
Defined.

Lemma update_single_again_rewrites_the_same_witness :
  fst (POST_update_single (table_clients padded_answer) 2
         (snd (POST_update_single (table_clients padded_answer) 2
                                  (fresh tt [acme; globex]))))
  = fst (POST_update_single (table_clients padded_answer) 2 (fresh tt [acme; globex]))
  /\ store (snd (POST_update_single (table_clients padded_answer) 2
                   (snd (POST_update_single (table_clients padded_answer) 2
                                            (fresh tt [acme; globex])))))
     = store (snd (POST_update_single (table_clients padded_answer) 2
                                      (fresh tt [acme; globex]))).
Proof.
  destruct (update_single_again_rewrites_the_same
              padded_answer 2 (fresh tt [acme; globex]) globex "Globex"
              (completion_of padded_text) padded_choice [] padded_text)
    as (Hresponse & Hstore & _).
  - apply list_elem_of_further, list_elem_of_here.
  - reflexivity.
  - reflexivity.
  - constructor; [intros Hid; vm_compute in Hid; discriminate Hid|].
    constructor; [intros _; reflexivity | constructor].
  - reflexivity.
  - reflexivity.
  - reflexivity.
  - split; [exact Hresponse | exact Hstore].
Defined.

Lemma lifespan_reports_unset_or_empty_variables_witness :
  (ERROR, "Missing required environment variables!")
    ∈ snd (lifespan_startup environ_with_empty_api_key).
Proof.
  apply (proj1 (proj2 (proj2 (lifespan_reports_unset_or_empty_variables
                                environ_with_empty_api_key)))).
  exists "OPENAI_API_KEY". split; [apply list_elem_of_here|]. right. reflexivity.
Defined.
